(** * SSD1315 OLED driver (ssd1315.py): shallow embedding and verification

The driver keeps a page-addressed, bit-packed frame buffer (a Python list
of ints) and talks to the panel through an SMBus handle.  Python objects
are modelled by records, Python ints by [Z], the mutable buffer by a
[list Z] threaded through a state-and-exception monad, and the I2C bus by
the log of the transactions the driver attempted on it. *)

From stdpp Require Import base numbers list strings.

Local Open Scope Z_scope.

(** ** Python runtime: exceptions, statements, lists *)

(** The exceptions that can travel through the driver: [IndexError] from a
    list subscript, [OSError] from smbus2, and whatever the caller's own
    drawing code raises inside a [with] block. *)
Inductive PyExc : Type :=
  | IndexError
  | OSError
  | Raised (name : string).

(** A Python statement over a mutable state [S]: it either completes with a
    value or raises, and the mutations made before a raise persist. *)
Definition Py (S A : Type) : Type := S → (A + PyExc) * S.

Definition ret {S A} (a : A) : Py S A := λ s, (inl a, s).

Definition bind {S A B} (m : Py S A) (f : A → Py S B) : Py S B := λ s,
  match m s with
  | (inl a, s') => f a s'
  | (inr e, s') => (inr e, s')
  end.

Definition raise {S A} (e : PyExc) : Py S A := λ s, (inr e, s).

(** Reading the current state, e.g. an attribute of [self]. *)
Definition get {S} : Py S S := λ s, (inl s, s).

Declare Scope py_scope.
Delimit Scope py_scope with py.
Notation "x <- c1 ;; c2" := (bind c1 (λ x, c2))
  (at level 100, c1 at next level, c2 at level 200, right associativity) : py_scope.
Notation "c1 ;; c2" := (bind c1 (λ _, c2))
  (at level 100, c2 at level 200, right associativity) : py_scope.
Local Open Scope py_scope.

(** [for x in xs: body(x)] *)
Fixpoint for_each {S A} (xs : list A) (body : A → Py S unit) : Py S unit :=
  match xs with
  | [] => ret tt
  | x :: xs' => body x ;; for_each xs' body
  end.

(** [range(start, stop, step)] for a positive step; CPython computes the
    number of items as [(stop - start + step - 1) // step], clipped at 0. *)
Definition py_range (start stop step : Z) : list Z :=
  (λ k : nat, start + Z.of_nat k * step) <$>
    seq 0 (Z.to_nat ((stop - start + step - 1) / step)).

(** [l[i:j]] for non-negative [i] and [j]: the slice is clipped to the list. *)
Definition py_slice {A} (l : list A) (i j : Z) : list A :=
  take (Z.to_nat j - Z.to_nat i)%nat (drop (Z.to_nat i) l).

(** [[v] * n]: a non-positive count gives the empty list. *)
Definition py_list_mul {A} (v : A) (n : Z) : list A := replicate (Z.to_nat n) v.

(** Position designated by the subscript [l[i]]: a negative index counts from
    the end, and anything outside the list is an [IndexError] ([None]). *)
Definition py_index (len : nat) (i : Z) : option nat :=
  if bool_decide (0 ≤ i) then
    if bool_decide (i < Z.of_nat len) then Some (Z.to_nat i) else None
  else
    if bool_decide (0 ≤ i + Z.of_nat len) then Some (Z.to_nat (i + Z.of_nat len))
    else None.

(** [with mgr as v: body]: [enter] is [mgr.__enter__], and when it raises
    nothing else runs.  [exit_] is [mgr.__exit__]; it receives the exception
    raised by the body, if any; that exception is re-raised unless [exit_]
    returns a true value, and an exception raised by [exit_] replaces it. *)
Definition with_stmt {S V} (enter : Py S V) (exit_ : option PyExc → Py S bool)
    (body : V → Py S unit) : Py S unit := λ s,
  match enter s with
  | (inr e, s0) => (inr e, s0)
  | (inl v, s0) =>
      match body v s0 with
      | (inl _, s1) =>
          match exit_ None s1 with
          | (inl _, s2) => (inl tt, s2)
          | (inr e', s2) => (inr e', s2)
          end
      | (inr e, s1) =>
          match exit_ (Some e) s1 with
          | (inl true, s2) => (inl tt, s2)
          | (inl false, s2) => (inr e, s2)
          | (inr e', s2) => (inr e', s2)
          end
      end
  end.

(** ** The I2C transport (smbus2) *)

(** The calls the driver makes on its [smbus2.SMBus] handle. *)
Inductive txn : Type :=
  | SMBus (bus_id : Z)
  | write_byte_data (i2c_addr register value : Z)
  | write_i2c_block_data (i2c_addr register : Z) (data : list Z)
  | bus_close.

(** What happened on the bus: a call that went through, or one that raised. *)
Inductive event : Type :=
  | Sent (t : txn)
  | Nacked (t : txn).

(** ** PIL images, as far as the driver reads them *)

Record Image : Type := {
  mode : string;
  size : Z * Z;
  load : Z → Z → Z   (* pixels[x, y] *)
}.

(** The [ImageDraw.Draw] handle of a canvas; drawing through it changes the
    canvas image. *)
Inductive ImageDraw : Type := Draw.

(** [Image.new(mode, size, color)] *)
Definition Image_new (m : string) (sz : Z * Z) (color : Z) : Image :=
  {| mode := m; size := sz; load := λ _ _, color |}.

(** ** class SSD1315 *)

Module SSD1315.

(** Command constants *)
Definition DISPLAY_OFF : Z := 0xAE.
Definition DISPLAY_ON : Z := 0xAF.
Definition SET_CLOCK_DIV : Z := 0xD5.
Definition SET_MUX_RATIO : Z := 0xA8.
Definition SET_DISPLAY_OFFSET : Z := 0xD3.
Definition SET_START_LINE : Z := 0x40.
Definition CHARGE_PUMP : Z := 0x8D.
Definition CHARGE_PUMP_ON : Z := 0x14.
Definition SET_MEMORY_MODE : Z := 0x20.
Definition SEG_REMAP_ON : Z := 0xA1.
Definition SEG_REMAP_OFF : Z := 0xA0.
Definition COM_SCAN_DEC : Z := 0xC8.
Definition COM_SCAN_INC : Z := 0xC0.
Definition SET_COM_PINS : Z := 0xDA.
Definition SET_CONTRAST : Z := 0x81.
Definition SET_PRECHARGE : Z := 0xD9.
Definition SET_VCOMH : Z := 0xDB.
Definition DISPLAY_ALL_ON_RESUME : Z := 0xA4.
Definition NORMAL_DISPLAY : Z := 0xA6.
Definition INVERSE_DISPLAY : Z := 0xA7.
Definition SET_COLUMN_ADDR : Z := 0x21.
Definition SET_PAGE_ADDR : Z := 0x22.

(** The instance attributes. [bus] stands for the SMBus handle. *)
Record attrs : Type := {
  bus : Z;
  address : Z;
  width : Z;
  height : Z;
  rotate : Z;
  pages : Z;
  _buffer : list Z
}.

(** The driver object together with the bus it drives. *)
Record state : Type := {
  self : attrs;
  wire : list event
}.

Definition set_buffer (buf : list Z) (st : state) : state :=
  {| self := {| bus := bus (self st); address := address (self st);
                width := width (self st); height := height (self st);
                rotate := rotate (self st); pages := pages (self st);
                _buffer := buf |};
     wire := wire st |}.

Definition log (e : event) (st : state) : state :=
  {| self := self st; wire := wire st ++ [e] |}.

Section Transport.

(** The environment decides, from what happened on the bus so far,
    whether the next call raises [OSError]. *)
Variable nack : list event → txn → bool.

Definition call (t : txn) : Py state unit := λ st,
  if nack (wire st) t then (inr OSError, log (Nacked t) st)
  else (inl tt, log (Sent t) st).

(** Send command byte(s) to the display. *)
Definition _command (cmds : list Z) : Py state unit :=
  for_each cmds (λ cmd st,
    call (write_byte_data (address (self st)) 0x00 cmd) st).

(** Send data bytes to the display. *)
Definition _data (data_bytes : list Z) : Py state unit :=
  let chunk_size := 32 in
  for_each (py_range 0 (Z.of_nat (length data_bytes)) chunk_size) (λ i st,
    let chunk := py_slice data_bytes i (i + chunk_size) in
    call (write_i2c_block_data (address (self st)) 0x40 chunk) st).

(** Clear the frame buffer. *)
Definition clear : Py state unit := λ st,
  (inl tt, set_buffer (py_list_mul 0 (width (self st) * pages (self st))) st).

(** Write frame buffer to display. *)
Definition display : Py state unit :=
  (λ st, _command [SET_COLUMN_ADDR; 0; width (self st) - 1] st) ;;
  (λ st, _command [SET_PAGE_ADDR; 0; pages (self st) - 1] st) ;;
  (λ st, _data (_buffer (self st)) st).

(** Initialize the display. *)
Definition _init_display : Py state unit :=
  _command [DISPLAY_OFF] ;;
  _command [SET_CLOCK_DIV; 0x80] ;;
  (λ st, _command [SET_MUX_RATIO; height (self st) - 1] st) ;;
  _command [SET_DISPLAY_OFFSET; 0x00] ;;
  _command [Z.lor SET_START_LINE 0x00] ;;
  _command [CHARGE_PUMP; CHARGE_PUMP_ON] ;;
  _command [SET_MEMORY_MODE; 0x00] ;;
  (λ st,
     if bool_decide (rotate (self st) = 0) then
       (_command [SEG_REMAP_ON] ;; _command [COM_SCAN_DEC]) st
     else
       (_command [SEG_REMAP_OFF] ;; _command [COM_SCAN_INC]) st) ;;
  (λ st,
     let com_pins := if bool_decide (height (self st) ≤ 32) then 0x02 else 0x12 in
     _command [SET_COM_PINS; com_pins] st) ;;
  _command [SET_CONTRAST; 0xCF] ;;
  _command [SET_PRECHARGE; 0xF1] ;;
  _command [SET_VCOMH; 0x40] ;;
  _command [DISPLAY_ALL_ON_RESUME] ;;
  _command [NORMAL_DISPLAY] ;;
  _command [DISPLAY_ON] ;;
  clear ;;
  display.

(** The constructor: opens the bus, stores the attributes, allocates the
    zeroed buffer and initializes the panel.  It starts from the bus log
    alone; when it raises there is no object. *)
Definition __init__ (bus_ address_ width_ height_ rotate_ : Z)
    (w : list event) : (attrs + PyExc) * list event :=
  if nack w (SMBus bus_) then (inr OSError, w ++ [Nacked (SMBus bus_)])
  else
    let pages_ := height_ / 8 in
    let st := {| self := {| bus := bus_; address := address_;
                            width := width_; height := height_;
                            rotate := rotate_; pages := pages_;
                            _buffer := py_list_mul 0 (width_ * pages_) |};
                 wire := w ++ [Sent (SMBus bus_)] |} in
    match _init_display st with
    | (inl _, st') => (inl (self st'), wire st')
    | (inr e, st') => (inr e, wire st')
    end.

(** Set display contrast. *)
Definition contrast (level : Z) : Py state unit :=
  _command [SET_CONTRAST; Z.land level 0xFF].

(** Invert display colors. *)
Definition invert (enable : bool) : Py state unit :=
  _command [if enable then INVERSE_DISPLAY else NORMAL_DISPLAY].

(** Turn display on or off. *)
Definition power (on : bool) : Py state unit :=
  _command [if on then DISPLAY_ON else DISPLAY_OFF].

(** Clean up resources. *)
Definition close : Py state unit :=
  power false ;; call bus_close.

End Transport.

(** Set a single pixel. *)
Definition set_pixel (x y color : Z) : Py state unit := λ st,
  if bool_decide (0 ≤ x < width (self st) ∧ 0 ≤ y < height (self st)) then
    let page := y / 8 in
    let bit := y `mod` 8 in
    let idx := page * width (self st) + x in
    let buf := _buffer (self st) in
    match py_index (length buf) idx with
    | None => (inr IndexError, st)
    | Some i =>
        match buf !! i with
        | None => (inr IndexError, st)
        | Some b =>
            if bool_decide (color ≠ 0) then
              (inl tt, set_buffer (<[i := Z.lor b (Z.shiftl 1 bit)]> buf) st)
            else
              (inl tt, set_buffer (<[i := Z.land b (Z.lnot (Z.shiftl 1 bit))]> buf) st)
        end
    end
  else (inl tt, st).

(** Fill entire display. *)
Definition fill (color : Z) : Py state unit := λ st,
  (inl tt,
   set_buffer (py_list_mul (if bool_decide (color ≠ 0) then 0xFF else 0x00)
                           (width (self st) * pages (self st))) st).

Section Pillow.

(** [img.convert(mode)] and [img.resize(size)] belong to PIL.  Here they
    return an image; a PIL that raises is in the next section. *)
Variable convert : string → Image → Image.
Variable resize : Z * Z → Image → Image.

(** Display a PIL Image. *)
Definition image (img : Image) : Py state unit := λ st,
  let img := if bool_decide (mode img ≠ "1"%string) then convert "1" img else img in
  let img := if bool_decide (size img ≠ (width (self st), height (self st)))
             then resize (width (self st), height (self st)) img else img in
  (clear ;;
   (λ st, let pixels := load img in
     for_each (py_range 0 (height (self st)) 1) (λ y st,
       for_each (py_range 0 (width (self st)) 1) (λ x,
         if bool_decide (pixels x y ≠ 0) then set_pixel x y 1
         else ret tt) st) st)) st.

End Pillow.

Section PillowRaising.

(** [img.convert(mode)] and [img.resize(size)] as PIL has them: each
    returns a new image or raises (ValueError for a mode or a size it cannot
    handle), and what it raises leaves [image] before [clear()] is reached. *)
Variable convert : string → Image → Image + PyExc.
Variable resize : Z * Z → Image → Image + PyExc.

(** Display a PIL Image. *)
Definition image_pil (img : Image) : Py state unit := λ st,
  match (if bool_decide (mode img ≠ "1"%string) then convert "1" img
         else inl img) with
  | inr e => (inr e, st)
  | inl img =>
      match (if bool_decide (size img ≠ (width (self st), height (self st)))
             then resize (width (self st), height (self st)) img
             else inl img) with
      | inr e => (inr e, st)
      | inl img =>
          (clear ;;
           (λ st, let pixels := load img in
             for_each (py_range 0 (height (self st)) 1) (λ y st,
               for_each (py_range 0 (width (self st)) 1) (λ x,
                 if bool_decide (pixels x y ≠ 0) then set_pixel x y 1
                 else ret tt) st) st)) st
      end
  end.

End PillowRaising.

End SSD1315.

(** ** class Canvas *)

Module Canvas.

(** The attributes of a Canvas.  [device] is a reference to the caller's
    display object, so the one copy kept here is that object itself: what
    the block does to the display and what [__exit__] does to it act on the
    same state.  [draw] is a handle on [image] and draws into it. *)
Record scope : Type := {
  device : SSD1315.state;
  image : Image
}.

(** A method call on [self.device]. *)
Definition on_device {A} (m : Py SSD1315.state A) : Py scope A := λ c,
  match m (device c) with
  | (r, d) => (r, {| device := d; image := image c |})
  end.

Definition __init__ (dev : SSD1315.state) : scope :=
  {| device := dev;
     image := Image_new "1" (SSD1315.width (SSD1315.self dev),
                             SSD1315.height (SSD1315.self dev)) 0 |}.

Definition __enter__ : Py scope ImageDraw := ret Draw.

Section Exit.

Variable nack : list event → txn → bool.
Variable convert : string → Image → Image.
Variable resize : Z * Z → Image → Image.

Definition __exit__ (exc : option PyExc) : Py scope bool :=
  (c <- get ;; on_device (SSD1315.image convert resize (image c))) ;;
  on_device (SSD1315.display nack) ;;
  ret false.

(** [with Canvas(dev) as draw: body] run on the display [dev]. *)
Definition with_canvas (body : ImageDraw → Py scope unit)
    : Py SSD1315.state unit := λ dev,
  match with_stmt __enter__ __exit__ body (__init__ dev) with
  | (r, c) => (r, device c)
  end.

End Exit.

End Canvas.

(** [canvas(device)] *)
Definition canvas (dev : SSD1315.state) : Canvas.scope := Canvas.__init__ dev.

(** ** examples/hello_world.py *)

Module hello_world.

Section Standalone.

Variable nack : list event → txn → bool.
Variable convert : string → Image → Image.
Variable resize : Z * Z → Image → Image.

(** What the block draws (a rectangle and two lines of text) is PIL's. *)
Variable drawing : ImageDraw → Py Canvas.scope unit.


End Standalone.

End hello_world.

(** ** examples/graphics_demo.py *)

Module graphics_demo.

(** The ball of [demo_animation]: centre and velocity. *)
Record ball : Type := { x : Z; y : Z; dx : Z; dy : Z }.

(** Before the loop. *)
Definition start : ball := {| x := 10; y := 16; dx := 2; dy := 1 |}.

(** One pass of the loop after the frame is drawn: move, then bounce. *)
Definition move (b : ball) : ball :=
  let x := x b + dx b in
  let y := y b + dy b in
  let dx := if bool_decide (x ≤ 3 ∨ x >= 60) then - dx b else dx b in
  let dy := if bool_decide (y ≤ 3 ∨ y >= 28) then - dy b else dy b in
  {| x := x; y := y; dx := dx; dy := dy |}.

(** The ball at the start of pass [n]. *)
Definition at_frame (n : nat) : ball := Nat.iter n move start.

(** The box of the ellipse drawn for a ball. *)
Definition ellipse_box (b : ball) : Z * Z * Z * Z :=
  (x b - 3, y b - 3, x b + 3, y b + 3).

(** The boxes drawn by the 50 passes of [demo_animation]. *)
Definition demo_animation : list (Z * Z * Z * Z) :=
  (λ n, ellipse_box (at_frame n)) <$> seq 0 50.

End graphics_demo.

(** ** tests/test_display.py *)

Module test_display.

(** The summary loop of [main]: the number of results that are true. *)
Definition passed (results : list (string * bool)) : nat :=
  foldl (λ passed '(name, result), if result : bool then S passed else passed)
        0%nat results.

(** The value [main] returns for the results it collected. *)
Definition main_returns (results : list (string * bool)) : Z :=
  if bool_decide (passed results = length results) then 0 else 1.

Section Standalone.

Variable nack : list event → txn → bool.
Variable convert : string → Image → Image.
Variable resize : Z * Z → Image → Image.

(** What the block draws (a rectangle and a line of text) is PIL's. *)
Variable drawing : ImageDraw → Py Canvas.scope unit.

(** Test standalone SSD1315 driver: the constructor, one canvas block,
    [clear()], [display()] and [close()]; [True] when nothing was raised and
    [False] when anything was.  The prints and the sleep are left out. *)
Definition test_standalone_driver (w : list event) : bool * list event :=
  match SSD1315.__init__ nack 1 0x3C 64 32 0 w with
  | (inr e, w') => (false, w')
  | (inl display, w') =>
      match (Canvas.with_canvas nack convert resize drawing ;;
             SSD1315.clear ;;
             SSD1315.display nack ;;
             SSD1315.close nack)
              {| SSD1315.self := display; SSD1315.wire := w' |} with
      | (inl _, st) => (true, SSD1315.wire st)
      | (inr e, st) => (false, SSD1315.wire st)
      end
  end.

End Standalone.

End test_display.

(** ** Observations used in the statements *)

Import SSD1315.

(** A transport on which every call goes through. *)
Definition reliable : list event → txn → bool := λ _ _, false.

(** Bit [k] of byte [j] of a buffer. *)
Definition bit_at (buf : list Z) (j : nat) (k : Z) : bool :=
  match buf !! j with
  | Some b => Z.testbit b k
  | None => false
  end.

(** The geometry a display is meant to have: the rows split into whole pages,
    and the buffer holds one byte per column and page. *)
Definition geometry (st : state) : Prop :=
  height (self st) `mod` 8 = 0 ∧
  pages (self st) = height (self st) / 8 ∧
  Z.of_nat (length (_buffer (self st))) = width (self st) * pages (self st).

(** The length the buffer is given wherever it is (re)allocated. *)
Definition buffer_sized (st : state) : Prop :=
  length (_buffer (self st)) = Z.to_nat (width (self st) * pages (self st)).

(** The payload bytes of the block writes in a bus log, in order. *)
Definition payload (evs : list event) : list Z :=
  concat ((λ e, match e with
                | Sent (write_i2c_block_data _ _ data) => data
                | _ => []
                end) <$> evs).

(** The block writes in a bus log. *)
Definition block_writes (evs : list event) : list (Z * Z * list Z) :=
  omap (λ e, match e with
             | Sent (write_i2c_block_data a r data) => Some (a, r, data)
             | _ => None
             end) evs.

(** The command bytes (register 0x00 writes) in a bus log, in order. *)
Definition commands (evs : list event) : list Z :=
  omap (λ e, match e with
             | Sent (write_byte_data _ 0 v) => Some v
             | _ => None
             end) evs.

(** The chunks [_data] cuts a payload into: one slice per loop index. *)
Definition chunks (data_bytes : list Z) : list (list Z) :=
  (λ i, py_slice data_bytes i (i + 32)) <$>
    py_range 0 (Z.of_nat (length data_bytes)) 32.

(** The bus log extended by successful calls. *)
Definition sent (ts : list txn) (st : state) : state :=
  {| self := self st; wire := wire st ++ (Sent <$> ts) |}.

(** The bus traffic of one [display()] of a given object. *)
Definition display_traffic (o : attrs) : list txn :=
  (write_byte_data (address o) 0x00 <$>
     [SET_COLUMN_ADDR; 0; width o - 1; SET_PAGE_ADDR; 0; pages o - 1]) ++
  (write_i2c_block_data (address o) 0x40 <$> chunks (_buffer o)).

(** What no method of the class changes once the buffer has its size: every
    attribute but the buffer contents, and the buffer length. *)
Definition shape (o : attrs) : Z * Z * Z * Z * Z * Z * nat :=
  (bus o, address o, width o, height o, rotate o, pages o, length (_buffer o)).

(** Invalid geometry in the sense of the configuration rules: the height is
    not a positive multiple of 8, or the width is not positive. *)
Definition invalid_geometry (width_ height_ : Z) : Prop :=
  ¬ (0 < height_ ∧ height_ `mod` 8 = 0) ∨ width_ ≤ 0.

(** The constructor raising before anything happened on the bus. *)
Definition rejects_before_bus_activity (nack : list event → txn → bool)
    (bus_ address_ width_ height_ rotate_ : Z) (w : list event) : Prop :=
  ∃ e, __init__ nack bus_ address_ width_ height_ rotate_ w = (inr e, w).

(** Specification of a statement: from a state in [P] it ends in [Q] when it
    completes and in [E] when it raises. *)
Definition triple {S A} (P : S → Prop) (m : Py S A)
    (Q : A → S → Prop) (E : PyExc → S → Prop) : Prop :=
  ∀ s, P s →
    match m s with
    | (inl a, s') => Q a s'
    | (inr e, s') => E e s'
    end.

(** The object still has the shape of [o0], and the bus log has only grown
    from [w0]. *)
Definition kept (o0 : attrs) (w0 : list event) (st : state) : Prop :=
  shape (self st) = shape o0 ∧ w0 `prefix_of` wire st.

(** A statement that keeps the shape however it ends, and raises nothing but
    the exceptions in [X]. *)
Definition keeps (o0 : attrs) (w0 : list event) {A} (X : PyExc → Prop)
    (m : Py state A) : Prop :=
  triple (kept o0 w0) m (λ _, kept o0 w0) (λ e st, X e ∧ kept o0 w0 st).

(** Same shape and same bus log as [st0]. *)
Definition drawn (st0 st : state) : Prop :=
  shape (self st) = shape (self st0) ∧ wire st = wire st0.

(** ** Concrete displays and blocks *)

(** A 64x32 display at 0x3C whose buffer holds 0xAA in every byte. *)
Definition striped : state :=
  {| self := {| bus := 1; address := 0x3C; width := 64; height := 32;
                rotate := 0; pages := 4; _buffer := py_list_mul 0xAA 256 |};
     wire := [] |}.

(** A transport on which every call raises. *)
Definition dead : list event → txn → bool := λ _ _, true.

(** Stand-ins for PIL's [convert] and [resize] on images that already have
    the mode and size asked for. *)
Definition unchanged {A} (_ : A) (img : Image) : Image := img.

(** [draw.point(xy, fill)] on the canvas image. *)
Definition point (xy : Z * Z) (fill_ : Z) : Py Canvas.scope unit := λ c,
  let img := Canvas.image c in
  (inl tt,
   {| Canvas.device := Canvas.device c;
      Canvas.image :=
        {| mode := mode img; size := size img;
           load := λ x y, if bool_decide ((x, y) = xy)
                          then (if bool_decide (fill_ ≠ 0) then 255 else 0)
                          else load img x y |} |}).

(** A block that draws a point and completes. *)
Definition draws_point : ImageDraw → Py Canvas.scope unit :=
  λ _, point (32, 16) 1.

(** A block that draws a point and then raises. *)
Definition draws_then_raises : ImageDraw → Py Canvas.scope unit :=
  λ _, point (32, 16) 1 ;; raise (Raised "ValueError").

(** ** More observations *)

(** Pixel (x, y) as the buffer of a display holds it. *)
Definition lit (st : state) (x y : Z) : bool :=
  bit_at (_buffer (self st)) (Z.to_nat (y / 8 * width (self st) + x)) (y `mod` 8).


(** The bus log extended by calls that went through and then one that
    raised. *)
Definition cut_short (ts : list txn) (t : txn) (st : state) : state :=
  log (Nacked t) (sent ts st).

(** A statement that leaves the object [o0] as it is, buffer included,
    however it ends, and raises nothing but [OSError]. *)
Definition leaves (o0 : attrs) {A} (m : Py state A) : Prop :=
  triple (λ st, self st = o0) m
    (λ _ st, self st = o0) (λ e st, e = OSError ∧ self st = o0).

(** The byte [b] after [set_pixel] has written [color] into its bit [bit]. *)
Definition write_bit (color bit b : Z) : Z :=
  if bool_decide (color ≠ 0) then Z.lor b (Z.shiftl 1 bit)
  else Z.land b (Z.lnot (Z.shiftl 1 bit)).

(** The state [st0] with, at most, another buffer. *)
Definition only_buffer (st0 st : state) : Prop := ∃ buf, st = set_buffer buf st0.

(** A 64x12 display as the constructor builds it: one page, 64 bytes. *)
Definition uneven : state :=
  {| self := {| bus := 1; address := 0x3C; width := 64; height := 12;
                rotate := 0; pages := 12 / 8; _buffer := py_list_mul 0 (64 * (12 / 8)) |};
     wire := [] |}.

(** Every bit that is set in the buffer of [st] is set in that of [st']. *)
Definition grows (st st' : state) : Prop :=
  ∀ j k, bit_at (_buffer (self st)) j k = true →
         bit_at (_buffer (self st')) j k = true.

(** Only pixels that are set in [pixels] are on in [st], a state drawn from
    [st0]. *)
Definition sound (st0 : state) (pixels : Z → Z → Z) (st : state) : Prop :=
  drawn st0 st ∧
  ∀ x y, 0 ≤ x < width (self st0) → 0 ≤ y < height (self st0) →
         lit st x y = true → pixels x y ≠ 0.

(** Pixel (x, y) is on in [st] if it is set in [pixels]. *)
Definition marked (pixels : Z → Z → Z) (x y : Z) (st : state) : Prop :=
  pixels x y ≠ 0 → lit st x y = true.

(** The picture [image] reads its pixels from: [img] converted to mode '1'
    unless it has it, then resized to the display unless it has its size. *)
Definition fitted (convert : string → Image → Image)
    (resize : Z * Z → Image → Image) (st : state) (img : Image) : Image :=
  let img := if bool_decide (mode img ≠ "1"%string) then convert "1" img else img in
  if bool_decide (size img ≠ (width (self st), height (self st)))
  then resize (width (self st), height (self st)) img else img.

(** A block that draws a point in row 8. *)
Definition draws_in_row_8 : ImageDraw → Py Canvas.scope unit :=
  λ _, point (0, 8) 1.




(** A block that completes and draws on the canvas image only. *)
Definition paints (drawing : ImageDraw → Py Canvas.scope unit) : Prop :=
  ∀ c, ∃ img, drawing Draw c =
                (inl tt, {| Canvas.device := Canvas.device c; Canvas.image := img |}).

(** What every pass of the loop of [demo_animation] keeps: the centre is at
    an even column, and the ball moves away from the wall it is next to. *)
Definition in_court (b : graphics_demo.ball) : Prop :=
  (∃ k, graphics_demo.x b = 2 * k ∧
        (graphics_demo.dx b = 2 ∧ 1 ≤ k ≤ 29 ∨
         graphics_demo.dx b = -2 ∧ 2 ≤ k ≤ 30)) ∧
  (graphics_demo.dy b = 1 ∧ 3 ≤ graphics_demo.y b ≤ 27 ∨
   graphics_demo.dy b = -1 ∧ 4 ≤ graphics_demo.y b ≤ 28).

(** A box that lies on the 64x32 screen. *)
Definition on_screen (box : Z * Z * Z * Z) : Prop :=
  match box with
  | (x0, y0, x1, y1) => 0 ≤ x0 ∧ 0 ≤ y0 ∧ x1 ≤ 63 ∧ y1 ≤ 31
  end.

#[global] Instance on_screen_dec (box : Z * Z * Z * Z) : Decision (on_screen box).
Proof. destruct box as [[[x0 y0] x1] y1]. simpl. apply _. Defined.


(** A PIL operation that raises ValueError whatever it is given. *)
Definition refuses {A} (_ : A) (_ : Image) : Image + PyExc :=
  inr (Raised "ValueError").

(** A 128x64 picture in mode '1', every pixel set. *)
Definition wide : Image :=
  {| mode := "1"; size := (128, 64); load := λ _ _, 255 |}.

(** A statement that, on the object [o], makes the calls [ts] on the bus in
    order, up to the first one that raises, and does nothing else. *)
Definition plays (nack : list event → txn → bool) (o : attrs) (ts : list txn)
    (m : Py state unit) : Prop :=
  ∀ st, self st = o → m st = for_each ts (λ t st, call nack t st) st.

(** A transport that goes down once [n] calls have been made on it. *)
Definition drops_after (n : nat) : list event → txn → bool :=
  λ evs _, bool_decide (n ≤ length evs)%nat.

(** ** Bits *)

Lemma testbit_or_shift (b bit k : Z) :
  0 ≤ bit →
  Z.testbit (Z.lor b (Z.shiftl 1 bit)) k =
    if bool_decide (k = bit) then true else Z.testbit b k.
Proof.
  intros Hbit. rewrite Z.lor_spec, Z.shiftl_1_l.
  destruct (Z.neg_nonneg_cases k) as [Hk|Hk].
  - rewrite !Z.testbit_neg_r by lia. rewrite bool_decide_false by lia. done.
  - rewrite Z.pow2_bits_eqb by lia.
    case_bool_decide; subst.
    + rewrite Z.eqb_refl. apply orb_true_r.
    + rewrite (proj2 (Z.eqb_neq bit k)) by lia. apply orb_false_r.
Qed.

Lemma testbit_and_not_shift (b bit k : Z) :
  0 ≤ bit →
  Z.testbit (Z.land b (Z.lnot (Z.shiftl 1 bit))) k =
    if bool_decide (k = bit) then false else Z.testbit b k.
Proof.
  intros Hbit. rewrite Z.land_spec, Z.shiftl_1_l.
  destruct (Z.neg_nonneg_cases k) as [Hk|Hk].
  - rewrite !Z.testbit_neg_r by lia. rewrite bool_decide_false by lia. done.
  - rewrite Z.lnot_spec, Z.pow2_bits_eqb by lia.
    case_bool_decide; subst.
    + rewrite Z.eqb_refl. apply andb_false_r.
    + rewrite (proj2 (Z.eqb_neq bit k)) by lia. apply andb_true_r.
Qed.

Lemma bit_at_insert (buf : list Z) (i j : nat) (b v : Z) (k : Z) :
  buf !! i = Some b →
  bit_at (<[i := v]> buf) j k =
    if bool_decide (j = i) then Z.testbit v k else bit_at buf j k.
Proof.
  intros Hi. unfold bit_at. case_bool_decide; subst.
  - rewrite list_lookup_insert_eq; [done|]. by eapply lookup_lt_Some.
  - by rewrite list_lookup_insert_ne.
Qed.

(** ** Subscripts *)

Lemma py_index_in_range (len : nat) (i : Z) :
  0 ≤ i < Z.of_nat len → py_index len i = Some (Z.to_nat i).
Proof.
  intros H. unfold py_index.
  rewrite bool_decide_true by lia. by rewrite bool_decide_true by lia.
Qed.

Lemma page_index_in_range (st : state) (x y : Z) :
  geometry st →
  0 ≤ x < width (self st) → 0 ≤ y < height (self st) →
  0 ≤ y / 8 * width (self st) + x < Z.of_nat (length (_buffer (self st))).
Proof.
  intros (Hm & Hp & Hl) Hx Hy. rewrite Hl, Hp.
  assert (0 ≤ y / 8) by (apply Z.div_pos; lia).
  assert (y / 8 < height (self st) / 8).
  { apply Z.div_lt_upper_bound; [lia|].
    rewrite <- Z_div_exact_full_2; lia. }
  nia.
Qed.

(** ** set_pixel *)

Lemma set_pixel_in_bounds_eq (st : state) (x y color : Z) :
  geometry st →
  0 ≤ x < width (self st) → 0 ≤ y < height (self st) →
  ∃ b, _buffer (self st) !! Z.to_nat (y / 8 * width (self st) + x) = Some b ∧
       set_pixel x y color st =
         (inl tt,
          set_buffer
            (<[Z.to_nat (y / 8 * width (self st) + x) :=
                 if bool_decide (color ≠ 0) then Z.lor b (Z.shiftl 1 (y `mod` 8))
                 else Z.land b (Z.lnot (Z.shiftl 1 (y `mod` 8)))]>
               (_buffer (self st))) st).
Proof.
  intros Hg Hx Hy.
  pose proof (page_index_in_range st x y Hg Hx Hy) as Hidx.
  destruct (lookup_lt_is_Some_2 (_buffer (self st))
              (Z.to_nat (y / 8 * width (self st) + x))) as [b Hb]; [lia|].
  exists b. split; [done|].
  unfold set_pixel. rewrite bool_decide_true by lia. cbv zeta.
  rewrite py_index_in_range by lia. rewrite Hb.
  by case_bool_decide.
Qed.

Lemma row_index_in_range (st : state) (x y : Z) :
  buffer_sized st →
  0 ≤ x < width (self st) → 0 ≤ y → y < 8 * pages (self st) →
  0 ≤ y / 8 * width (self st) + x < Z.of_nat (length (_buffer (self st))).
Proof.
  intros Hsz Hx Hy Hrow. unfold buffer_sized in Hsz. rewrite Hsz.
  assert (0 ≤ y / 8) by (apply Z.div_pos; lia).
  assert (y / 8 < pages (self st)) by (apply Z.div_lt_upper_bound; lia).
  rewrite Z2Nat.id by nia. nia.
Qed.

Lemma set_pixel_in_rows_eq (st : state) (x y color : Z) :
  buffer_sized st →
  0 ≤ x < width (self st) → 0 ≤ y < height (self st) → y < 8 * pages (self st) →
  ∃ b, _buffer (self st) !! Z.to_nat (y / 8 * width (self st) + x) = Some b ∧
       set_pixel x y color st =
         (inl tt,
          set_buffer
            (<[Z.to_nat (y / 8 * width (self st) + x) :=
                 if bool_decide (color ≠ 0) then Z.lor b (Z.shiftl 1 (y `mod` 8))
                 else Z.land b (Z.lnot (Z.shiftl 1 (y `mod` 8)))]>
               (_buffer (self st))) st).
Proof.
  intros Hsz Hx Hy Hrow.
  pose proof (row_index_in_range st x y Hsz Hx (proj1 Hy) Hrow) as Hidx.
  destruct (lookup_lt_is_Some_2 (_buffer (self st))
              (Z.to_nat (y / 8 * width (self st) + x))) as [b Hb]; [lia|].
  exists b. split; [done|].
  unfold set_pixel. rewrite bool_decide_true by lia. cbv zeta.
  rewrite py_index_in_range by lia. rewrite Hb.
  by case_bool_decide.
Qed.

(** C1, amended. On a buffer of width*pages bytes, for every x in
    [0,width) and every y in [0,height) whose row lies in one of the
    buffer's pages (y < 8*pages, which is every row of the display when the
    height is a multiple of 8 and pages = height // 8), and whatever the
    buffer holds, set_pixel(x,y,1) completes and sets bit (y mod 8) of the
    byte at index (y/8)*width + x, set_pixel(x,y,0) completes and clears
    that bit, and in both cases every other bit of every byte, the buffer
    length, the other attributes and the bus are as before. *)
Theorem set_pixel_sets_or_clears_exactly_one_bit (st : state) (x y : Z) :
  buffer_sized st →
  0 ≤ x < width (self st) → 0 ≤ y < height (self st) →
  y < 8 * pages (self st) ∨
    (height (self st) `mod` 8 = 0 ∧ pages (self st) = height (self st) / 8) →
  let idx := Z.to_nat (y / 8 * width (self st) + x) in
  let bit := y `mod` 8 in
  (idx < length (_buffer (self st)))%nat ∧
  (∃ buf1,
     set_pixel x y 1 st = (inl tt, set_buffer buf1 st) ∧
     length buf1 = length (_buffer (self st)) ∧
     ∀ j k, bit_at buf1 j k =
       if bool_decide (j = idx ∧ k = bit) then true
       else bit_at (_buffer (self st)) j k) ∧
  (∃ buf0,
     set_pixel x y 0 st = (inl tt, set_buffer buf0 st) ∧
     length buf0 = length (_buffer (self st)) ∧
     ∀ j k, bit_at buf0 j k =
       if bool_decide (j = idx ∧ k = bit) then false
       else bit_at (_buffer (self st)) j k).
Proof.
  intros Hsz Hx Hy Hpage idx bit.
  assert (y < 8 * pages (self st)) as Hrow.
  { destruct Hpage as [Hrow|[Hm ->]]; [done|].
    rewrite <- Z_div_exact_full_2; lia. }
  assert (0 ≤ bit) as Hbit by (apply Z.mod_pos_bound; lia).
  pose proof (row_index_in_range st x y Hsz Hx (proj1 Hy) Hrow) as Hidx.
  split; [subst idx; lia|]. split.
  - destruct (set_pixel_in_rows_eq st x y 1 Hsz Hx Hy Hrow) as (b & Hb & ->).
    eexists. split; [done|]. split; [by rewrite length_insert|].
    intros j k. rewrite (bit_at_insert _ _ _ b) by done.
    rewrite (bool_decide_true (1 ≠ 0)) by lia. fold idx bit.
    destruct (decide (j = idx)) as [->|Hj].
    + rewrite (bool_decide_true (idx = idx)) by done.
      rewrite testbit_or_shift by done.
      destruct (decide (k = bit)) as [->|Hk].
      * rewrite !bool_decide_true by done. done.
      * rewrite !bool_decide_false by tauto.
        unfold bit_at, idx. by rewrite Hb.
    + rewrite !bool_decide_false by tauto. done.
  - destruct (set_pixel_in_rows_eq st x y 0 Hsz Hx Hy Hrow) as (b & Hb & ->).
    eexists. split; [done|]. split; [by rewrite length_insert|].
    intros j k. rewrite (bit_at_insert _ _ _ b) by done.
    rewrite (bool_decide_false (0 ≠ 0)) by lia. fold idx bit.
    destruct (decide (j = idx)) as [->|Hj].
    + rewrite (bool_decide_true (idx = idx)) by done.
      rewrite testbit_and_not_shift by done.
      destruct (decide (k = bit)) as [->|Hk].
      * rewrite !bool_decide_true by done. done.
      * rewrite !bool_decide_false by tauto.
        unfold bit_at, idx. by rewrite Hb.
    + rewrite !bool_decide_false by tauto. done.
Qed.

(** C1 as stated fails: SSD1315(width=64, height=12) returns a display with
    one page of 64 bytes, on which (0, 8) is inside [0,width) x [0,height)
    and set_pixel(0,8,1) raises IndexError, setting no bit. *)
Lemma set_pixel_raises_on_64x12_display :
  ∃ o w,
    __init__ reliable 1 0x3C 64 12 0 [] = (inl o, w) ∧
    (0 ≤ 0 < width o ∧ 0 ≤ 8 < height o) ∧
    set_pixel 0 8 1 {| self := o; wire := w |} =
      (inr IndexError, {| self := o; wire := w |}) ∧
    ¬ ∃ buf1, set_pixel 0 8 1 {| self := o; wire := w |} =
                (inl tt, set_buffer buf1 {| self := o; wire := w |}).
Proof.
  eexists _, _. split; [vm_compute; reflexivity|].
  split; [simpl; lia|].
  split; [vm_compute; reflexivity|].
  intros [buf1 Hrun]. vm_compute in Hrun. discriminate.
Qed.

(** C5. For every (x, y) outside [0,width) x [0,height) and every colour,
    set_pixel completes without raising and leaves the whole state, the
    buffer included, exactly as it was. *)
Theorem set_pixel_out_of_bounds_is_noop (st : state) (x y color : Z) :
  ¬ (0 ≤ x < width (self st) ∧ 0 ≤ y < height (self st)) →
  set_pixel x y color st = (inl tt, st).
Proof.
  intros Hout. unfold set_pixel. by rewrite bool_decide_false.
Qed.

(** ** fill and clear *)

Lemma py_list_mul_length {A} (v : A) (n : Z) :
  length (py_list_mul v n) = Z.to_nat n.
Proof. apply length_replicate. Qed.

Lemma py_list_mul_all {A} (v : A) (n : Z) : Forall (eq v) (py_list_mul v n).
Proof. unfold py_list_mul. induction (Z.to_nat n); constructor; done. Qed.

(** C6. Whatever the buffer held, fill(1) completes with a buffer of
    width*pages bytes that are all 0xFF, and fill(0) with a buffer of the
    same length whose bytes are all 0x00 (a product below zero gives the
    empty buffer, as Python's list repetition does). *)
Theorem fill_sets_every_byte (st : state) :
  let n := width (self st) * pages (self st) in
  (∃ buf1, fill 1 st = (inl tt, set_buffer buf1 st) ∧
           length buf1 = Z.to_nat n ∧ Forall (eq 0xFF) buf1) ∧
  (∃ buf0, fill 0 st = (inl tt, set_buffer buf0 st) ∧
           length buf0 = Z.to_nat n ∧ Forall (eq 0x00) buf0).
Proof.
  intros n. split; eexists; (split; [reflexivity|]).
  - rewrite bool_decide_true by done.
    split; [apply py_list_mul_length | apply py_list_mul_all].
  - rewrite bool_decide_false by lia.
    split; [apply py_list_mul_length | apply py_list_mul_all].
Qed.

(** ** Loops over a reliable transport *)

Lemma sent_nil (st : state) : sent [] st = st.
Proof. destruct st. unfold sent. simpl. by rewrite app_nil_r. Qed.

Lemma sent_sent (ts us : list txn) (st : state) :
  sent us (sent ts st) = sent (ts ++ us) st.
Proof. unfold sent. simpl. by rewrite fmap_app, app_assoc. Qed.

Lemma call_reliable (t : txn) (st : state) :
  call reliable t st = (inl tt, sent [t] st).
Proof. reflexivity. Qed.

Lemma for_each_call_reliable {A} (f : A → attrs → txn) (xs : list A) (st : state) :
  for_each xs (λ x st, call reliable (f x (self st)) st) st =
    (inl tt, sent ((λ x, f x (self st)) <$> xs) st).
Proof.
  revert st. induction xs as [|x xs IH]; intros st.
  - simpl. unfold ret. by rewrite sent_nil.
  - simpl. unfold bind. rewrite call_reliable, IH, sent_sent. done.
Qed.

Lemma _command_reliable (cmds : list Z) (st : state) :
  _command reliable cmds st =
    (inl tt, sent (write_byte_data (address (self st)) 0x00 <$> cmds) st).
Proof.
  unfold _command.
  apply (for_each_call_reliable (λ cmd o, write_byte_data (address o) 0x00 cmd)).
Qed.

Lemma _data_reliable (data_bytes : list Z) (st : state) :
  _data reliable data_bytes st =
    (inl tt, sent (write_i2c_block_data (address (self st)) 0x40 <$> chunks data_bytes) st).
Proof.
  unfold _data, chunks. cbv zeta.
  rewrite (for_each_call_reliable
             (λ i o, write_i2c_block_data (address o) 0x40
                       (py_slice data_bytes i (i + 32)))).
  by rewrite <- list_fmap_compose.
Qed.

Lemma display_reliable (st : state) :
  display reliable st = (inl tt, sent (display_traffic (self st)) st).
Proof.
  unfold display, bind. rewrite !_command_reliable. simpl self.
  rewrite _data_reliable, !sent_sent. done.
Qed.

(** ** Chunking *)

Lemma chunks_nth (data_bytes : list Z) :
  chunks data_bytes =
    (λ k : nat, take 32 (drop (k * 32) data_bytes)) <$>
      seq 0 (Z.to_nat ((Z.of_nat (length data_bytes) + 31) / 32)).
Proof.
  unfold chunks, py_range. rewrite <- list_fmap_compose.
  replace (Z.of_nat (length data_bytes) - 0 + 32 - 1)
    with (Z.of_nat (length data_bytes) + 31) by lia.
  apply list_fmap_ext. intros _ k _. simpl. unfold py_slice.
  f_equal; [lia|f_equal; lia].
Qed.

Lemma concat_take_drop {A} (c n : nat) (l : list A) :
  concat ((λ k : nat, take c (drop (k * c) l)) <$> seq 0 n) = take (n * c) l.
Proof.
  induction n as [|n IH]; [done|].
  rewrite seq_S, fmap_app, concat_app, IH. simpl.
  rewrite app_nil_r, take_take_drop. f_equal. lia.
Qed.

Lemma ceil_div_32 (L : Z) :
  0 ≤ L → L ≤ 32 * ((L + 31) / 32) < L + 32.
Proof.
  intros HL. pose proof (Z.div_mod (L + 31) 32 ltac:(lia)).
  pose proof (Z.mod_pos_bound (L + 31) 32 ltac:(lia)). lia.
Qed.

Lemma chunks_concat (data_bytes : list Z) : concat (chunks data_bytes) = data_bytes.
Proof.
  rewrite chunks_nth, concat_take_drop. apply take_ge.
  pose proof (ceil_div_32 (Z.of_nat (length data_bytes)) ltac:(lia)). lia.
Qed.

Lemma chunks_length (data_bytes : list Z) :
  Z.of_nat (length (chunks data_bytes)) = (Z.of_nat (length data_bytes) + 31) / 32.
Proof.
  rewrite chunks_nth, length_fmap, length_seq.
  apply Z2Nat.id, Z.div_pos; lia.
Qed.

Lemma chunks_sizes (data_bytes : list Z) :
  Forall (λ c, (1 ≤ length c ≤ 32)%nat) (chunks data_bytes).
Proof.
  rewrite chunks_nth. apply Forall_fmap, Forall_seq. intros k [_ Hk]. simpl.
  rewrite length_take, length_drop.
  pose proof (ceil_div_32 (Z.of_nat (length data_bytes)) ltac:(lia)).
  assert (0 ≤ (Z.of_nat (length data_bytes) + 31) / 32) by (apply Z.div_pos; lia).
  lia.
Qed.

(** C3. On a transport that accepts every write, sending a payload of L
    bytes completes and adds to the bus exactly the block writes of its
    chunks, each with the data prefix 0x40, in order; there are ceil(L/32)
    of them (the n with L <= 32*n < L+32, which is (L+31)/32), each carries
    between 1 and 32 bytes, and the chunks concatenated in the order sent
    are the payload. *)
Theorem data_sends_payload_in_chunks (data_bytes : list Z) (st : state) :
  let L := Z.of_nat (length data_bytes) in
  let n := Z.of_nat (length (chunks data_bytes)) in
  _data reliable data_bytes st =
    (inl tt,
     sent (write_i2c_block_data (address (self st)) 0x40 <$> chunks data_bytes) st) ∧
  n = (L + 31) / 32 ∧
  L ≤ 32 * n < L + 32 ∧
  Forall (λ c, (1 ≤ length c ≤ 32)%nat) (chunks data_bytes) ∧
  concat (chunks data_bytes) = data_bytes.
Proof.
  intros L n. split; [apply _data_reliable|].
  split; [apply chunks_length|].
  split; [subst n; rewrite chunks_length; apply ceil_div_32; lia|].
  split; [apply chunks_sizes | apply chunks_concat].
Qed.

(** ** display *)

Lemma payload_app (l1 l2 : list event) : payload (l1 ++ l2) = payload l1 ++ payload l2.
Proof. unfold payload. by rewrite fmap_app, concat_app. Qed.

Lemma payload_commands (a r : Z) (cmds : list Z) :
  payload (Sent <$> (write_byte_data a r <$> cmds)) = [].
Proof. induction cmds as [|c cmds IH]; [done|]. apply IH. Qed.

Lemma payload_blocks (a r : Z) (cs : list (list Z)) :
  payload (Sent <$> (write_i2c_block_data a r <$> cs)) = concat cs.
Proof.
  induction cs as [|c cs IH]; [done|].
  change (payload (Sent <$> (write_i2c_block_data a r <$> c :: cs)))
    with (c ++ payload (Sent <$> (write_i2c_block_data a r <$> cs))).
  by rewrite IH.
Qed.

Lemma payload_display_traffic (o : attrs) :
  payload (Sent <$> display_traffic o) = _buffer o.
Proof.
  unfold display_traffic.
  rewrite fmap_app, payload_app, payload_commands, payload_blocks.
  apply chunks_concat.
Qed.

(** C2. On a transport that accepts every write and for every buffer,
    display() completes and adds to the bus, in this order: the command
    bytes 0x21, 0, width-1 (column window), the command bytes 0x22, 0,
    pages-1 (page window), then the whole buffer as 0x40 block writes, whose
    payload is the buffer itself.  For SSD1315(width=64, height=32,
    rotate=0), set_pixel(0,0,1) on the cleared buffer and display(), the
    payload sent is 0x01 followed by 255 bytes 0x00, 256 bytes in all. *)
Theorem display_sets_windows_then_streams_buffer :
  (∀ st : state,
     display reliable st =
       (inl tt,
        sent ((write_byte_data (address (self st)) 0x00 <$>
                 [0x21; 0; width (self st) - 1; 0x22; 0; pages (self st) - 1]) ++
              (write_i2c_block_data (address (self st)) 0x40 <$>
                 chunks (_buffer (self st)))) st) ∧
     concat (chunks (_buffer (self st))) = _buffer (self st)) ∧
  (∃ o w0 st1 st2 tr,
     __init__ reliable 1 0x3C 64 32 0 [] = (inl o, w0) ∧
     set_pixel 0 0 1 {| self := o; wire := w0 |} = (inl tt, st1) ∧
     display reliable st1 = (inl tt, st2) ∧
     wire st2 = wire st1 ++ tr ∧
     payload tr = 0x01 :: replicate 255 0x00 ∧
     length (payload tr) = 256%nat).
Proof.
  split.
  - intros st. split; [apply display_reliable | apply chunks_concat].
  - eexists _, _, _, _, _.
    split; [vm_compute; reflexivity|].
    split; [vm_compute; reflexivity|].
    split; [apply display_reliable|].
    split; [reflexivity|].
    split; [|rewrite payload_display_traffic; vm_compute; reflexivity].
    rewrite payload_display_traffic. vm_compute. reflexivity.
Qed.

(** ** _init_display *)

Lemma self_sent (ts : list txn) (st : state) : self (sent ts st) = self st.
Proof. reflexivity. Qed.

Lemma sent_set_buffer (ts : list txn) (buf : list Z) (st : state) :
  set_buffer buf (sent ts st) = sent ts (set_buffer buf st).
Proof. reflexivity. Qed.

(** Running a sequence of [_command] calls, and gathering what was sent. *)
Ltac send_commands := repeat (rewrite _command_reliable, ?self_sent).
Ltac collect_sent :=
  repeat (rewrite sent_set_buffer || rewrite self_sent || rewrite sent_sent).

(** C4. On a transport that accepts every write, initialization completes
    and sends exactly this command stream, in this order: 0xAE; 0xD5, 0x80;
    0xA8, height-1; 0xD3, 0x00; 0x40; 0x8D, 0x14; 0x20, 0x00; then 0xA1, 0xC8
    when rotate is 0 and 0xA0, 0xC0 for any other value (180 included); 0xDA
    with 0x02 when height <= 32 and 0x12 otherwise; 0x81, 0xCF; 0xD9, 0xF1;
    0xDB, 0x40; 0xA4; 0xA6; 0xAF; and it ends by zeroing the buffer and
    sending it with display(). *)
Theorem init_display_command_stream (st : state) :
  let o := self st in
  let cleared := set_buffer (py_list_mul 0 (width o * pages o)) st in
  _init_display reliable st =
    (inl tt,
     sent ((write_byte_data (address o) 0x00 <$>
              [0xAE; 0xD5; 0x80; 0xA8; height o - 1; 0xD3; 0x00; 0x40;
               0x8D; 0x14; 0x20; 0x00] ++
              (if bool_decide (rotate o = 0) then [0xA1; 0xC8] else [0xA0; 0xC0]) ++
              [0xDA; if bool_decide (height o ≤ 32) then 0x02 else 0x12;
               0x81; 0xCF; 0xD9; 0xF1; 0xDB; 0x40; 0xA4; 0xA6; 0xAF]) ++
           display_traffic (self cleared)) cleared).
Proof.
  intros o cleared. subst o cleared. unfold _init_display, bind.
  send_commands.
  destruct (bool_decide (rotate (self st) = 0));
    send_commands; unfold clear; rewrite display_reliable; collect_sent;
    reflexivity.
Qed.

(** ** Rules for statements *)

Section Rules.

Context {S : Type}.
Implicit Types (P I : S → Prop) (E : PyExc → S → Prop).

Lemma triple_bind {A B} P (m : Py S A) (f : A → Py S B) Q R E :
  triple P m Q E → (∀ a, triple (Q a) (f a) R E) → triple P (bind m f) R E.
Proof.
  intros Hm Hf s Hs. unfold bind. specialize (Hm s Hs).
  destruct (m s) as [[a|e] s']; [|done]. by apply Hf.
Qed.

Lemma triple_for_each {A} I (xs : list A) (body : A → Py S unit) E :
  (∀ x, x ∈ xs → triple I (body x) (λ _, I) E) →
  triple I (for_each xs body) (λ _, I) E.
Proof.
  induction xs as [|x xs IH]; intros Hbody.
  - intros s Hs. done.
  - simpl. eapply triple_bind.
    + apply Hbody. by left.
    + intros u. apply IH. intros y Hy. apply Hbody. by right.
Qed.

End Rules.

Lemma elem_of_py_range (n x : Z) : x ∈ py_range 0 n 1 → 0 ≤ x < n.
Proof.
  unfold py_range. intros (k & Hx & Hk)%list_elem_of_fmap.
  apply elem_of_seq in Hk. rewrite Z.div_1_r in Hk. lia.
Qed.

(** ** What the methods keep *)

Section Kept.

Variable nack : list event → txn → bool.
Variable o0 : attrs.
Variable w0 : list event.

Lemma keeps_bind {A B} X (m : Py state A) (f : A → Py state B) :
  keeps o0 w0 X m → (∀ a, keeps o0 w0 X (f a)) → keeps o0 w0 X (bind m f).
Proof. intros Hm Hf. eapply triple_bind; [apply Hm|apply Hf]. Qed.

Lemma keeps_for_each {A} X (xs : list A) (body : A → Py state unit) :
  (∀ x, keeps o0 w0 X (body x)) → keeps o0 w0 X (for_each xs body).
Proof. intros Hb. apply triple_for_each. intros x _. apply Hb. Qed.

Lemma keeps_state {A} X (m : state → Py state A) :
  (∀ st, keeps o0 w0 X (m st)) → keeps o0 w0 X (λ st, m st st).
Proof. intros Hm s Hs. by apply (Hm s). Qed.

Lemma keeps_call (t : txn) : keeps o0 w0 (eq OSError) (call nack t).
Proof.
  intros s [Hs Hw]. unfold call.
  destruct (nack (wire s) t); repeat split; try done;
    by apply prefix_app_r.
Qed.

Lemma keeps__command (cmds : list Z) : keeps o0 w0 (eq OSError) (_command nack cmds).
Proof.
  apply keeps_for_each. intros cmd.
  apply (keeps_state _ (λ st, call nack _)). intros st. apply keeps_call.
Qed.

Lemma keeps__data (data_bytes : list Z) : keeps o0 w0 (eq OSError) (_data nack data_bytes).
Proof.
  apply keeps_for_each. intros i.
  apply (keeps_state _ (λ st, call nack _)). intros st. apply keeps_call.
Qed.

Lemma keeps_display : keeps o0 w0 (eq OSError) (display nack).
Proof.
  unfold display.
  apply keeps_bind; [|intros u1; apply keeps_bind; [|intros u2]].
  - apply (keeps_state _ (λ st, _command nack _)). intros. apply keeps__command.
  - apply (keeps_state _ (λ st, _command nack _)). intros. apply keeps__command.
  - apply (keeps_state _ (λ st, _data nack _)). intros. apply keeps__data.
Qed.

Lemma keeps_set_pixel (x y color : Z) : keeps o0 w0 (eq IndexError) (set_pixel x y color).
Proof.
  intros s [Hs Hw]. unfold set_pixel. case_bool_decide; [|done]. cbv zeta.
  destruct (py_index _ _) as [i|]; [|done].
  destruct (_ !! i) as [b|]; [|done].
  case_bool_decide; (split; [|done]);
    unfold shape in *; simpl; by rewrite length_insert.
Qed.

Hypothesis sized : length (_buffer o0) = Z.to_nat (width o0 * pages o0).

Lemma kept_width_pages (st : state) :
  kept o0 w0 st → Z.to_nat (width (self st) * pages (self st)) = length (_buffer o0).
Proof. unfold kept, shape. intros [[= _ _ -> _ _ -> _] _]. done. Qed.

Lemma keeps_clear X : keeps o0 w0 X clear.
Proof.
  intros s Hs. unfold clear. pose proof (kept_width_pages s Hs) as Hn.
  destruct Hs as [Hs Hw]. split; [|done].
  unfold shape in *. simpl. rewrite py_list_mul_length, Hn.
  by injection Hs as -> -> -> -> -> -> _.
Qed.

Lemma keeps_fill X (color : Z) : keeps o0 w0 X (fill color).
Proof.
  intros s Hs. unfold fill. pose proof (kept_width_pages s Hs) as Hn.
  destruct Hs as [Hs Hw]. split; [|done].
  unfold shape in *. simpl. rewrite py_list_mul_length, Hn.
  by injection Hs as -> -> -> -> -> -> _.
Qed.

Lemma keeps_image convert resize (img : Image) :
  keeps o0 w0 (eq IndexError) (image convert resize img).
Proof.
  apply (keeps_state _ (λ st0 : state, bind clear _)). intros st0.
  apply keeps_bind; [apply keeps_clear|]. intros u.
  apply (keeps_state _ (λ st1 : state, for_each _ _)). intros st1.
  apply keeps_for_each. intros y.
  apply (keeps_state _ (λ st2 : state, for_each _ _)). intros st2.
  apply keeps_for_each. intros x.
  case_bool_decide; [apply keeps_set_pixel|].
  intros s Hs. done.
Qed.

Lemma keeps__init_display : keeps o0 w0 (eq OSError) (_init_display nack).
Proof.
  unfold _init_display.
  repeat first
    [ apply keeps__command
    | apply keeps_clear
    | apply keeps_display
    | apply (keeps_state _ (λ st, _command nack _)); intros ?
    | apply keeps_bind; [|intros ?] ].
  intros s Hs.
  case_bool_decide;
    by apply (keeps_bind (eq OSError) (_command nack _) (λ _, _command nack _)
                (keeps__command _) (λ _, keeps__command _)).
Qed.

End Kept.

Lemma keeps_run {A} (X : PyExc → Prop) (m : Py state A) (st : state) :
  keeps (self st) (wire st) X m →
  shape (self (snd (m st))) = shape (self st) ∧
  wire st `prefix_of` wire (snd (m st)) ∧
  ∀ e, fst (m st) = inr e → X e.
Proof.
  intros Hm. specialize (Hm st (conj eq_refl (reflexivity _))).
  destruct (m st) as [[a|e] s']; simpl.
  - destruct Hm. repeat split; try done.
  - destruct Hm as (? & ? & ?). repeat split; try done. by intros ? [= <-].
Qed.

Lemma keeps_snd {A} (X : PyExc → Prop) (m : Py state A) (st : state) :
  keeps (self st) (wire st) X m → shape (self (snd (m st))) = shape (self st).
Proof. intros Hm. by apply keeps_run in Hm as (? & _). Qed.

Lemma shape_length (o o' : attrs) :
  shape o' = shape o → length (_buffer o') = length (_buffer o).
Proof. by intros [= _ _ _ _ _ _ ?]. Qed.

Lemma shape_buffer_sized (st st' : state) :
  shape (self st') = shape (self st) → buffer_sized st → buffer_sized st'.
Proof. unfold buffer_sized. intros [= _ _ -> _ _ -> ->]. done. Qed.

Lemma shape_geometry (st st' : state) :
  shape (self st') = shape (self st) → geometry st → geometry st'.
Proof. unfold geometry. intros [= _ _ -> -> _ -> ->]. done. Qed.

(** ** The constructor *)

Lemma __init__reliable (bus_ address_ width_ height_ rotate_ : Z) (w : list event) :
  let o := {| bus := bus_; address := address_; width := width_;
              height := height_; rotate := rotate_; pages := height_ / 8;
              _buffer := py_list_mul 0 (width_ * (height_ / 8)) |} in
  __init__ reliable bus_ address_ width_ height_ rotate_ w =
    (inl o,
     w ++ [Sent (SMBus bus_)] ++
       (Sent <$>
          (write_byte_data address_ 0x00 <$>
             [0xAE; 0xD5; 0x80; 0xA8; height_ - 1; 0xD3; 0x00; 0x40;
              0x8D; 0x14; 0x20; 0x00] ++
             (if bool_decide (rotate_ = 0) then [0xA1; 0xC8] else [0xA0; 0xC0]) ++
             [0xDA; if bool_decide (height_ ≤ 32) then 0x02 else 0x12;
              0x81; 0xCF; 0xD9; 0xF1; 0xDB; 0x40; 0xA4; 0xA6; 0xAF]) ++
          display_traffic o)).
Proof.
  intros o. unfold __init__. simpl.
  match goal with |- context [_init_display reliable ?s] => set (st0 := s) end.
  assert (_init_display reliable st0 =
            (clear ;; display reliable)
              (sent (write_byte_data address_ 0x00 <$>
                       [0xAE; 0xD5; 0x80; 0xA8; height_ - 1; 0xD3; 0x00; 0x40;
                        0x8D; 0x14; 0x20; 0x00] ++
                       (if bool_decide (rotate_ = 0) then [0xA1; 0xC8]
                        else [0xA0; 0xC0]) ++
                       [0xDA; if bool_decide (height_ ≤ 32) then 0x02 else 0x12;
                        0x81; 0xCF; 0xD9; 0xF1; 0xDB; 0x40; 0xA4; 0xA6; 0xAF]) st0))
    as ->.
  { unfold _init_display, bind. send_commands. unfold st0 at 1. simpl rotate.
    destruct (bool_decide (rotate_ = 0)); send_commands; collect_sent;
      reflexivity. }
  unfold bind, clear. rewrite display_reliable. collect_sent.
  unfold sent. cbn [wire self set_buffer st0]. rewrite <- app_assoc. reflexivity.
Qed.

Lemma __init__shape nack (bus_ address_ width_ height_ rotate_ : Z)
    (w w' : list event) (o : attrs) :
  __init__ nack bus_ address_ width_ height_ rotate_ w = (inl o, w') →
  shape o = (bus_, address_, width_, height_, rotate_, height_ / 8,
             Z.to_nat (width_ * (height_ / 8))).
Proof.
  unfold __init__. destruct (nack w (SMBus bus_)); [done|].
  match goal with |- context [_init_display nack ?s] => set (st0 := s) end.
  pose proof (keeps_snd (eq OSError) (_init_display nack) st0) as Hk.
  destruct (_init_display nack st0) as [[u|e] st'] eqn:Hrun; [|done].
  intros [= <- <-]. simpl in Hk. rewrite Hk.
  - unfold shape, st0. simpl. by rewrite py_list_mul_length.
  - apply keeps__init_display. unfold st0. simpl. apply py_list_mul_length.
Qed.

(** C9. The buffer is allocated with width*pages bytes: whenever the
    constructor returns an object, its pages are height // 8 and its buffer
    has width*pages bytes (Python's list repetition: none when the product is
    negative), and on a transport that accepts every write the constructor
    does return.  From then on set_pixel, fill, clear and image, whether they
    complete or raise, leave the buffer with the length it had, which is
    still width*pages. *)
Theorem buffer_length_is_invariant :
  (∀ nack bus_ address_ width_ height_ rotate_ w o w',
     __init__ nack bus_ address_ width_ height_ rotate_ w = (inl o, w') →
     width o = width_ ∧ pages o = height_ / 8 ∧
     buffer_sized {| self := o; wire := w' |} ∧
     (0 ≤ width_ → 0 ≤ height_ →
      Z.of_nat (length (_buffer o)) = width o * pages o)) ∧
  (∀ bus_ address_ width_ height_ rotate_ w,
     ∃ o w', __init__ reliable bus_ address_ width_ height_ rotate_ w = (inl o, w')) ∧
  (∀ st : state, buffer_sized st →
     ∀ convert resize x y color img,
       Forall (λ m : Py state unit,
                 length (_buffer (self (snd (m st)))) = length (_buffer (self st)) ∧
                 buffer_sized (snd (m st)))
         [set_pixel x y color; fill color; clear; image convert resize img]).
Proof.
  split; [|split].
  - intros nack b a w h r w0 o w' Hinit.
    apply __init__shape in Hinit. unfold shape in Hinit.
    injection Hinit as _ _ Hw _ _ Hp Hl. unfold buffer_sized. simpl.
    rewrite Hw, Hp. repeat split; try done.
    intros Hw0 Hh0. rewrite Hl.
    assert (0 ≤ h / 8) by (apply Z.div_pos; lia). nia.
  - intros b a w h r w0. eexists _, _. apply __init__reliable.
  - intros st Hsz convert resize x y color img.
    assert (∀ X (m : Py state unit), keeps (self st) (wire st) X m →
              length (_buffer (self (snd (m st)))) = length (_buffer (self st)) ∧
              buffer_sized (snd (m st))) as Hkeep.
    { intros X m Hm. apply keeps_snd in Hm.
      split; [by apply shape_length | by eapply shape_buffer_sized]. }
    constructor; [|constructor; [|constructor; [|constructor; [|constructor]]]].
    + apply (Hkeep _ _ (keeps_set_pixel _ _ x y color)).
    + apply (Hkeep (λ _, False) _ (keeps_fill _ _ Hsz _ color)).
    + apply (Hkeep (λ _, False) _ (keeps_clear _ _ Hsz _)).
    + apply (Hkeep _ _ (keeps_image _ _ Hsz convert resize img)).
Qed.

(** ** Where the geometry comes from *)

(** The constructor establishes the geometry when the height is a multiple
    of 8 and neither dimension is negative. *)
Lemma __init__geometry nack (bus_ address_ width_ height_ rotate_ : Z)
    (w w' : list event) (o : attrs) :
  0 ≤ width_ → 0 ≤ height_ → height_ `mod` 8 = 0 →
  __init__ nack bus_ address_ width_ height_ rotate_ w = (inl o, w') →
  geometry {| self := o; wire := w' |}.
Proof.
  intros Hw Hh Hm Hinit. apply __init__shape in Hinit.
  injection Hinit as _ _ Hwo Hho _ Hpo Hlo.
  unfold geometry. simpl. rewrite Hwo, Hho, Hpo, Hlo.
  repeat split; try done.
  assert (0 ≤ height_ / 8) by (apply Z.div_pos; lia). nia.
Qed.

(** Every statement that keeps the shape keeps the geometry. *)
Lemma keeps_geometry {A} (X : PyExc → Prop) (m : Py state A) (st : state) :
  keeps (self st) (wire st) X m → geometry st → geometry (snd (m st)).
Proof. intros Hm Hg. apply keeps_snd in Hm. by eapply shape_geometry. Qed.

(** ** image on a display with whole pages *)

Section Ingest.

Variable st0 : state.
Hypothesis whole_pages : geometry st0.

Lemma drawn_geometry (st : state) : drawn st0 st → geometry st.
Proof. intros [Hs _]. by eapply shape_geometry. Qed.

Lemma drawn_set_pixel (x y : Z) :
  triple (λ st, drawn st0 st ∧ 0 ≤ x < width (self st) ∧ 0 ≤ y < height (self st))
         (set_pixel x y 1) (λ _, drawn st0) (λ _ _, False).
Proof.
  intros st (Hd & Hx & Hy).
  destruct (set_pixel_in_bounds_eq st x y 1 (drawn_geometry st Hd) Hx Hy)
    as (b & _ & ->).
  destruct Hd as [Hs Hw]. split; [|done].
  rewrite <- Hs. unfold shape. simpl. by rewrite length_insert.
Qed.

Lemma drawn_clear : triple (drawn st0) clear (λ _, drawn st0) (λ _ _, False).
Proof.
  intros st [Hs Hw]. split; [|done]. rewrite <- Hs.
  pose proof (shape_geometry _ _ Hs whole_pages) as (_ & _ & Hl).
  unfold shape. simpl. rewrite py_list_mul_length, <- Hl.
  by rewrite Nat2Z.id.
Qed.

Lemma drawn_dims (st : state) :
  drawn st0 st →
  width (self st) = width (self st0) ∧ height (self st) = height (self st0).
Proof. intros [Hs _]. by injection Hs as _ _ -> -> _ _ _. Qed.

Lemma drawn_row (pixels : Z → Z → Z) (y : Z) :
  0 ≤ y < height (self st0) →
  triple (drawn st0)
    (λ st, for_each (py_range 0 (width (self st)) 1) (λ x,
       if bool_decide (pixels x y ≠ 0) then set_pixel x y 1 else ret tt) st)
    (λ _, drawn st0) (λ _ _, False).
Proof.
  intros Hy st Hst. destruct (drawn_dims st Hst) as [Hw Hh].
  apply (triple_for_each (drawn st0)); [|done].
  intros x Hx%elem_of_py_range s Hs. destruct (drawn_dims s Hs) as [Hw' Hh'].
  case_bool_decide; [|done].
  apply drawn_set_pixel. split; [done|]. lia.
Qed.

Lemma drawn_rows (pixels : Z → Z → Z) :
  triple (drawn st0)
    (λ st, for_each (py_range 0 (height (self st)) 1) (λ y st,
       for_each (py_range 0 (width (self st)) 1) (λ x,
         if bool_decide (pixels x y ≠ 0) then set_pixel x y 1 else ret tt) st) st)
    (λ _, drawn st0) (λ _ _, False).
Proof.
  intros st Hst. destruct (drawn_dims st Hst) as [Hw Hh].
  apply (triple_for_each (drawn st0)); [|done].
  intros y Hy%elem_of_py_range. apply drawn_row. lia.
Qed.

Lemma image_completes convert resize (img : Image) :
  ∃ st, image convert resize img st0 = (inl tt, st) ∧ drawn st0 st.
Proof.
  assert (drawn st0 st0) as H0 by done.
  unfold image. cbv zeta.
  match goal with
  | |- context [bind clear ?k] =>
      pose proof (triple_bind (drawn st0) clear k _ (λ _, drawn st0) _ drawn_clear) as Ht
  end.
  specialize (Ht (λ _, drawn_rows _) st0 H0).
  match type of Ht with
  | match ?r with _ => _ end => destruct r as [[[]|e] s']
  end; [|done].
  by exists s'.
Qed.

End Ingest.

(** C8 as stated fails: a height of 12 is not a multiple of 8, yet the
    constructor returns an object after driving the bus. *)
Lemma constructor_accepts_height_12 :
  invalid_geometry 64 12 ∧
  ¬ rejects_before_bus_activity reliable 1 0x3C 64 12 0 [] ∧
  ∃ o w, __init__ reliable 1 0x3C 64 12 0 [] = (inl o, w) ∧
         pages o = 1 ∧ length (_buffer o) = 64%nat ∧ w ≠ [].
Proof.
  split; [|split].
  - left. intros [_ H]. vm_compute in H. discriminate.
  - intros [e He]. rewrite __init__reliable in He. discriminate.
  - eexists _, _. split; [apply __init__reliable|]. by vm_compute.
Qed.

(** ** Canvas *)

Lemma with_canvas_unfold nack convert resize (body : ImageDraw → Py Canvas.scope unit)
    (dev : state) :
  Canvas.with_canvas nack convert resize body dev =
    match body Draw (Canvas.__init__ dev) with
    | (r, c1) =>
        match image convert resize (Canvas.image c1) (Canvas.device c1) with
        | (inl _, ingested) =>
            match display nack ingested with
            | (inl _, shown) => (r, shown)
            | (inr e', shown) => (inr e', shown)
            end
        | (inr e', stopped) => (inr e', stopped)
        end
    end.
Proof.
  unfold Canvas.with_canvas, with_stmt, Canvas.__exit__, Canvas.__enter__,
    Canvas.on_device, bind, get, ret.
  destruct (body Draw (Canvas.__init__ dev)) as [[[]|e] c1]; simpl;
    destruct (image convert resize (Canvas.image c1) (Canvas.device c1))
      as [[[]|e1] ingested]; simpl; try done;
    destruct (display nack ingested) as [[[]|e2] shown]; done.
Qed.

(** C10. When the block raises [e], the with statement never completes
    normally: some exception reaches the caller.  It is [e] itself whenever
    the exit returns, which it does when the display has whole pages and the
    transport accepts every write; an exception raised by the exit itself
    (the transport failing during display()) is what takes its place
    otherwise. *)
Theorem canvas_exit_does_not_suppress
    nack convert resize (body : ImageDraw → Py Canvas.scope unit) (dev : state) (e : PyExc) :
  let after_body := snd (body Draw (Canvas.__init__ dev)) in
  fst (body Draw (Canvas.__init__ dev)) = inr e →
  (∃ e', fst (Canvas.with_canvas nack convert resize body dev) = inr e') ∧
  (∀ b, fst (Canvas.__exit__ nack convert resize (Some e) after_body) = inl b →
        b = false ∧
        fst (Canvas.with_canvas nack convert resize body dev) = inr e) ∧
  (geometry (Canvas.device after_body) →
   fst (Canvas.with_canvas reliable convert resize body dev) = inr e).
Proof.
  intros after_body Hraise. subst after_body.
  rewrite !with_canvas_unfold.
  unfold Canvas.__exit__, Canvas.on_device, bind, get, ret.
  destruct (body Draw (Canvas.__init__ dev)) as [r c1]. simpl in *. subst r.
  split; [|split].
  - destruct (image convert resize (Canvas.image c1) (Canvas.device c1))
      as [[[]|e1] ingested]; [|by eexists].
    destruct (display nack ingested) as [[[]|e2] shown]; by eexists.
  - intros b.
    destruct (image convert resize (Canvas.image c1) (Canvas.device c1))
      as [[[]|e1] ingested]; simpl; [|done].
    destruct (display nack ingested) as [[[]|e2] shown]; simpl; [|done].
    by intros [= <-].
  - intros Hg.
    destruct (image_completes _ Hg convert resize (Canvas.image c1))
      as (ingested & -> & _).
    by rewrite display_reliable.
Qed.

(** ** The statements at concrete displays *)

Lemma striped_geometry : geometry striped.
Proof. repeat split; reflexivity. Defined.

(** Row 10 of column 5 of the striped display is bit 2 of byte 69. *)
Lemma set_pixel_striped_5_10 :
  buffer_sized striped ∧
  0 ≤ 5 < width (self striped) ∧ 0 ≤ 10 < height (self striped) ∧
  10 < 8 * pages (self striped) ∧
  ∃ buf1, set_pixel 5 10 1 striped = (inl tt, set_buffer buf1 striped) ∧
          bit_at (_buffer (self striped)) 69 2 = false ∧
          bit_at buf1 69 2 = true ∧
          bit_at buf1 69 3 = bit_at (_buffer (self striped)) 69 3.
Proof.
  assert (0 ≤ 5 < width (self striped)) as Hx by (simpl; lia).
  assert (0 ≤ 10 < height (self striped)) as Hy by (simpl; lia).
  assert (buffer_sized striped) as Hsz by reflexivity.
  assert (10 < 8 * pages (self striped)) as Hrow by (simpl; lia).
  split; [exact Hsz|]. split; [exact Hx|]. split; [exact Hy|].
  split; [exact Hrow|].
  destruct (set_pixel_sets_or_clears_exactly_one_bit striped 5 10
              Hsz Hx Hy (or_introl Hrow)) as (_ & (buf1 & Hrun & _ & Hbits) & _).
  exists buf1. split; [exact Hrun|]. split; [reflexivity|].
  rewrite !Hbits. split; reflexivity.
Defined.

(** Column -1 is outside the striped display. *)
Lemma set_pixel_striped_outside :
  ¬ (0 ≤ -1 < width (self striped) ∧ 0 ≤ 0 < height (self striped)) ∧
  set_pixel (-1) 0 1 striped = (inl tt, striped).
Proof.
  assert (¬ (0 ≤ -1 < width (self striped) ∧ 0 ≤ 0 < height (self striped)))
    as Hout by (simpl; lia).
  split; [exact Hout|].
  exact (set_pixel_out_of_bounds_is_noop striped (-1) 0 1 Hout).
Defined.

(** The striped display keeps its 256 bytes through fill(1). *)
Lemma fill_striped_length :
  buffer_sized striped ∧
  length (_buffer (self (snd (fill 1 striped)))) = length (_buffer (self striped)) ∧
  buffer_sized (snd (fill 1 striped)).
Proof.
  assert (buffer_sized striped) as Hsz by reflexivity.
  split; [exact Hsz|].
  pose proof (proj2 (proj2 buffer_length_is_invariant) striped Hsz
                (@unchanged string) (@unchanged (Z * Z)) 0 0 1
                (Image_new "1" (64, 32) 0)) as Hall.
  apply Forall_cons_1 in Hall as [_ Hall].
  apply Forall_cons_1 in Hall as [Hfill _].
  exact Hfill.
Defined.

(** The exception of that block reaches the caller. *)
Lemma canvas_reraises_ValueError :
  fst (draws_then_raises Draw (Canvas.__init__ striped)) = inr (Raised "ValueError") ∧
  fst (Canvas.with_canvas reliable (@unchanged string) (@unchanged (Z * Z))
         draws_then_raises striped) = inr (Raised "ValueError").
Proof.
  assert (fst (draws_then_raises Draw (Canvas.__init__ striped)) =
            inr (Raised "ValueError")) as Hraise by reflexivity.
  split; [exact Hraise|].
  exact (proj2 (proj2 (canvas_exit_does_not_suppress reliable
                         (@unchanged string) (@unchanged (Z * Z))
                         draws_then_raises striped (Raised "ValueError") Hraise))
           striped_geometry).
Defined.

(** A point drawn at (32,16) ends up in bit 0 of page 2, column 32; the
    buffer is sent once, in eight block writes. *)
Example canvas_point_32_16 :
  ∃ shown,
    Canvas.with_canvas reliable (@unchanged string) (@unchanged (Z * Z))
      draws_point striped = (inl tt, shown) ∧
    _buffer (self shown) = <[Z.to_nat (2 * 64 + 32) := 1]> (py_list_mul 0 256) ∧
    payload (wire shown) = _buffer (self shown) ∧
    length (block_writes (wire shown)) = 8%nat ∧
    commands (wire shown) = [0x21; 0; 63; 0x22; 0; 3].
Proof. eexists. split; [by vm_compute|]. by vm_compute. Qed.

(** fill(1) then display(): 256 bytes 0xFF in 8 block writes of 32 bytes. *)
Example fill_then_display :
  ∃ shown,
    (fill 1 ;; display reliable) striped = (inl tt, shown) ∧
    payload (wire shown) = replicate 256 0xFF ∧
    block_writes (wire shown) = replicate 8 (0x3C, 0x40, replicate 32 0xFF).
Proof. eexists. split; [by vm_compute|]. by vm_compute. Qed.

(** ** The transport when it fails *)

Lemma sent_cons (t : txn) (ts : list txn) (st : state) :
  sent ts (sent [t] st) = sent (t :: ts) st.
Proof. apply sent_sent. Qed.

Lemma call_refused nack (t : txn) (st : state) :
  nack (wire st) t = true → call nack t st = (inr OSError, cut_short [] t st).
Proof. intros Hn. unfold call, cut_short. by rewrite Hn, sent_nil. Qed.

Lemma call_accepted nack (t : txn) (st : state) :
  nack (wire st) t = false → call nack t st = (inl tt, sent [t] st).
Proof. intros Hn. unfold call. by rewrite Hn. Qed.

Lemma for_each_call_any nack {A} (f : A → attrs → txn) (xs : list A) (st : state) :
  let ts := (λ x, f x (self st)) <$> xs in
  for_each xs (λ x st, call nack (f x (self st)) st) st = (inl tt, sent ts st) ∨
  ∃ (k : nat) (t : txn),
    ts !! k = Some t ∧
    for_each xs (λ x st, call nack (f x (self st)) st) st =
      (inr OSError, cut_short (take k ts) t st).
Proof.
  revert st. induction xs as [|x xs IH]; intros st ts.
  - left. simpl. unfold ret. by rewrite sent_nil.
  - subst ts. simpl. unfold bind.
    destruct (nack (wire st) (f x (self st))) eqn:Hn.
    + right. exists 0%nat, (f x (self st)). split; [done|].
      by rewrite call_refused.
    + rewrite call_accepted by done.
      destruct (IH (sent [f x (self st)] st)) as [Hok|(k & t & Hk & Hfail)].
      * left. rewrite Hok. by rewrite sent_cons.
      * right. exists (S k), t. split; [done|].
        rewrite Hfail. unfold cut_short. simpl take. by rewrite sent_cons.
Qed.

(** X1. Whatever the transport does, _command writes its bytes one by one
    to register 0x00 in the order given and stops at the first write that
    raises: either every byte went through and it completes, or it raises
    OSError after the first k bytes went through and byte k was refused,
    and nothing is attempted after that. *)
Theorem command_stops_at_first_failure nack (cmds : list Z) (st : state) :
  let ts := write_byte_data (address (self st)) 0x00 <$> cmds in
  _command nack cmds st = (inl tt, sent ts st) ∨
  ∃ (k : nat) (cmd : Z),
    cmds !! k = Some cmd ∧
    _command nack cmds st =
      (inr OSError,
       cut_short (take k ts) (write_byte_data (address (self st)) 0x00 cmd) st).
Proof.
  intros ts. unfold _command.
  destruct (for_each_call_any nack
              (λ cmd o, write_byte_data (address o) 0x00 cmd) cmds st)
    as [Hok|(k & t & Hk & Hfail)]; [by left|right].
  apply list_lookup_fmap_Some in Hk as (cmd & -> & Hcmd).
  by exists k, cmd.
Qed.

(** X2. Whatever the transport does, _data sends the chunks of the payload
    in order, each as one block write with prefix 0x40, and stops at the
    first block that raises: it completes after all chunks, or raises
    OSError after the first k chunks went through and chunk k was refused.
    An empty payload causes no transaction at all. *)
Theorem data_stops_at_first_failure nack (data_bytes : list Z) (st : state) :
  let ts := write_i2c_block_data (address (self st)) 0x40 <$> chunks data_bytes in
  (_data nack data_bytes st = (inl tt, sent ts st) ∨
   ∃ (k : nat) (chunk : list Z),
     chunks data_bytes !! k = Some chunk ∧
     _data nack data_bytes st =
       (inr OSError,
        cut_short (take k ts)
          (write_i2c_block_data (address (self st)) 0x40 chunk) st)) ∧
  _data nack [] st = (inl tt, st).
Proof.
  intros ts. split; [|done].
  unfold _data. cbv zeta.
  destruct (for_each_call_any nack
              (λ i o, write_i2c_block_data (address o) 0x40
                        (py_slice data_bytes i (i + 32)))
              (py_range 0 (Z.of_nat (length data_bytes)) 32) st)
    as [Hok|(k & t & Hk & Hfail)].
  - left. rewrite Hok. subst ts. unfold chunks. by rewrite <- list_fmap_compose.
  - right. apply list_lookup_fmap_Some in Hk as (i & -> & Hi).
    exists k, (py_slice data_bytes i (i + 32)). split.
    + unfold chunks. by rewrite list_lookup_fmap, Hi.
    + rewrite Hfail. subst ts. unfold chunks. by rewrite <- list_fmap_compose.
Qed.

(** ** Methods that only talk to the panel *)

Section Leaves.

Variable nack : list event → txn → bool.
Variable o0 : attrs.

Lemma leaves_bind {A B} (m : Py state A) (f : A → Py state B) :
  leaves o0 m → (∀ a, leaves o0 (f a)) → leaves o0 (bind m f).
Proof. intros Hm Hf. eapply triple_bind; [apply Hm|apply Hf]. Qed.

Lemma leaves_call (t : txn) : leaves o0 (call nack t).
Proof. intros s Hs. unfold call. by destruct (nack (wire s) t). Qed.

Lemma leaves_calls {A} (f : A → attrs → txn) (xs : list A) :
  leaves o0 (for_each xs (λ x st, call nack (f x (self st)) st)).
Proof.
  apply triple_for_each. intros x _ s Hs. by apply leaves_call.
Qed.

Lemma leaves__command (cmds : list Z) : leaves o0 (_command nack cmds).
Proof. apply (leaves_calls (λ cmd o, write_byte_data (address o) 0x00 cmd)). Qed.

Lemma leaves__data (data_bytes : list Z) : leaves o0 (_data nack data_bytes).
Proof.
  apply (leaves_calls (λ i o, write_i2c_block_data (address o) 0x40
                                (py_slice data_bytes i (i + 32)))).
Qed.

Lemma leaves_display : leaves o0 (display nack).
Proof.
  unfold display.
  apply leaves_bind; [|intros u1; apply leaves_bind; [|intros u2]].
  - intros s Hs. by apply leaves__command.
  - intros s Hs. by apply leaves__command.
  - intros s Hs. by apply leaves__data.
Qed.

Lemma leaves_close : leaves o0 (close nack).
Proof.
  unfold close, power. apply leaves_bind; [apply leaves__command|].
  intros u. apply leaves_call.
Qed.

End Leaves.

Lemma leaves_run {A} (m : Py state A) (st : state) :
  leaves (self st) m →
  self (snd (m st)) = self st ∧ ∀ e, fst (m st) = inr e → e = OSError.
Proof.
  intros Hm. specialize (Hm st eq_refl).
  destruct (m st) as [[a|e] s']; simpl; [done|].
  destruct Hm as [-> ?]. split; [done|]. by intros ? [= <-].
Qed.

(** X3. display, contrast, invert, power and close only talk to the panel:
    on any transport, and whether they complete or raise, they leave every
    attribute of the object as it was, the buffer contents included, and
    the only exception they raise is OSError. *)
Theorem panel_methods_leave_the_object nack (st : state) (level : Z) (flag : bool) :
  Forall (λ m : Py state unit,
            self (snd (m st)) = self st ∧
            ∀ e, fst (m st) = inr e → e = OSError)
    [display nack; contrast nack level; invert nack flag; power nack flag;
     close nack].
Proof.
  constructor; [apply leaves_run, leaves_display|].
  constructor; [apply leaves_run, leaves__command|].
  constructor; [apply leaves_run, leaves__command|].
  constructor; [apply leaves_run, leaves__command|].
  constructor; [apply leaves_run, leaves_close|].
  constructor.
Qed.

(** X4. contrast(level) accepts any integer: on a transport that accepts
    every write it sends the command 0x81 followed by level mod 256, a byte
    in 0..255 (so 256 wraps to 0 and -1 to 255), and nothing else. *)
Theorem contrast_masks_level_to_a_byte (level : Z) (st : state) :
  contrast reliable level st =
    (inl tt,
     sent (write_byte_data (address (self st)) 0x00 <$> [0x81; level `mod` 256]) st) ∧
  0 ≤ level `mod` 256 < 256.
Proof.
  split; [|by apply Z.mod_pos_bound].
  unfold contrast. rewrite _command_reliable.
  change 0xFF with (Z.ones 8). by rewrite Z.land_ones.
Qed.

(** X5. close() powers the panel off and then releases the bus, in that
    order.  When the power-off write is refused it raises OSError there and
    the bus is never closed; when the write goes through, the bus is closed
    (or the closing itself raises). *)
Theorem close_powers_off_then_releases nack (st : state) :
  let off := write_byte_data (address (self st)) 0x00 0xAE in
  (nack (wire st) off = true →
   close nack st = (inr OSError, cut_short [] off st)) ∧
  (nack (wire st) off = false →
   close nack st =
     if nack (wire st ++ [Sent off]) bus_close
     then (inr OSError, cut_short [off] bus_close st)
     else (inl tt, sent [off; bus_close] st)).
Proof.
  intros off. unfold close, power, _command, bind. simpl for_each.
  unfold bind, ret. fold off. split; intros Hn.
  - rewrite call_refused by done. reflexivity.
  - rewrite call_accepted by done.
    destruct (nack (wire st ++ [Sent off]) bus_close) eqn:Hc.
    + rewrite call_refused by done. unfold cut_short. rewrite sent_sent.
      reflexivity.
    + rewrite call_accepted by done. rewrite sent_cons. reflexivity.
Qed.

(** On a dead transport close() raises at the power-off write. *)
Lemma close_on_dead_transport :
  dead (wire striped) (write_byte_data 0x3C 0x00 0xAE) = true ∧
  close dead striped =
    (inr OSError, cut_short [] (write_byte_data 0x3C 0x00 0xAE) striped).
Proof.
  assert (dead (wire striped) (write_byte_data 0x3C 0x00 0xAE) = true) as Hn
    by reflexivity.
  split; [exact Hn|].
  exact (proj1 (close_powers_off_then_releases dead striped) Hn).
Defined.

(** ** Writing one bit of a byte *)

Lemma testbit_write_bit (color bit b k : Z) :
  0 ≤ bit →
  Z.testbit (write_bit color bit b) k =
    if bool_decide (k = bit) then bool_decide (color ≠ 0) else Z.testbit b k.
Proof.
  intros Hbit. unfold write_bit. case_bool_decide.
  - by rewrite testbit_or_shift.
  - by rewrite testbit_and_not_shift.
Qed.

Lemma write_bit_twice (c1 c2 bit b : Z) :
  0 ≤ bit → write_bit c2 bit (write_bit c1 bit b) = write_bit c2 bit b.
Proof.
  intros Hbit. apply Z.bits_inj'. intros k _.
  rewrite !testbit_write_bit by done. by case_bool_decide.
Qed.

Lemma write_bit_swap (c1 c2 bit1 bit2 b : Z) :
  0 ≤ bit1 → 0 ≤ bit2 → bit1 ≠ bit2 →
  write_bit c2 bit2 (write_bit c1 bit1 b) = write_bit c1 bit1 (write_bit c2 bit2 b).
Proof.
  intros H1 H2 Hne. apply Z.bits_inj'. intros k _.
  rewrite !testbit_write_bit by done. repeat case_bool_decide; congruence.
Qed.



(** ** set_pixel, step by step *)

Lemma set_pixel_cases (x y color : Z) (st : state) :
  let idx := y / 8 * width (self st) + x in
  (¬ (0 ≤ x < width (self st) ∧ 0 ≤ y < height (self st)) ∧
   set_pixel x y color st = (inl tt, st)) ∨
  (0 ≤ x < width (self st) ∧ 0 ≤ y < height (self st) ∧
   py_index (length (_buffer (self st))) idx = None ∧
   set_pixel x y color st = (inr IndexError, st)) ∨
  (∃ (i : nat) (b : Z),
     0 ≤ x < width (self st) ∧ 0 ≤ y < height (self st) ∧
     py_index (length (_buffer (self st))) idx = Some i ∧
     _buffer (self st) !! i = Some b ∧
     set_pixel x y color st =
       (inl tt, set_buffer (<[i := write_bit color (y `mod` 8) b]> (_buffer (self st))) st)).
Proof.
  intros idx. unfold set_pixel. case_bool_decide as Hin; [|by left]. right.
  cbv zeta. fold idx.
  destruct (py_index _ idx) as [i|] eqn:Hi; [|left; by destruct Hin].
  assert (i < length (_buffer (self st)))%nat as Hlt.
  { unfold py_index in Hi. repeat case_bool_decide; simplify_eq; lia. }
  destruct (lookup_lt_is_Some_2 _ _ Hlt) as [b Hb]. rewrite Hb.
  right. exists i, b. destruct Hin. repeat split; try lia; try done.
  unfold write_bit. by destruct (bool_decide (color ≠ 0)).
Qed.

(** X6. Writing the same pixel twice is the same as the second write alone,
    in every state and for every coordinate pair and colours: the later
    colour wins, a pixel outside the display is ignored both times, and a
    write that raises IndexError raises it the first time already. *)
Theorem set_pixel_last_write_wins (x y c1 c2 : Z) (st : state) :
  (set_pixel x y c1 ;; set_pixel x y c2) st = set_pixel x y c2 st.
Proof.
  unfold bind.
  destruct (set_pixel_cases x y c1 st) as [[Hout H1]|[(Hx & Hy & Hi & H1)|H1]].
  - by rewrite H1.
  - rewrite H1.
    destruct (set_pixel_cases x y c2 st) as [[Hout _]|[(_ & _ & _ & H2)|H2]];
      [tauto|done|].
    destruct H2 as (i & b & _ & _ & Hi' & _). congruence.
  - destruct H1 as (i & b & Hx & Hy & Hi & Hb & H1). rewrite H1.
    assert (0 ≤ y `mod` 8) as Hbit by (apply Z.mod_pos_bound; lia).
    assert (i < length (_buffer (self st)))%nat as Hlt by by eapply lookup_lt_Some.
    destruct (set_pixel_cases x y c2 st) as [[Hout _]|[(_ & _ & Hi' & _)|H2]];
      [tauto|congruence|].
    destruct H2 as (i' & b' & _ & _ & Hi' & Hb' & ->).
    assert (i' = i) as -> by congruence. assert (b' = b) as -> by congruence.
    set (st1 := set_buffer _ st).
    destruct (set_pixel_cases x y c2 st1) as [[Hout _]|[(_ & _ & Hi1 & _)|H2]].
    + simpl in Hout. tauto.
    + subst st1. simpl in Hi1. rewrite length_insert in Hi1. congruence.
    + destruct H2 as (i1 & b1 & _ & _ & Hi1 & Hb1 & ->). subst st1. simpl in *.
      rewrite length_insert in Hi1. assert (i1 = i) as -> by congruence.
      rewrite list_lookup_insert_eq in Hb1 by done. injection Hb1 as <-.
      rewrite list_insert_insert_eq, write_bit_twice by done. done.
Qed.

(** ** Pixels and positions in the buffer *)

Lemma pixel_position_inj (w x1 y1 x2 y2 : Z) :
  0 ≤ x1 < w → 0 ≤ x2 < w → 0 ≤ y1 → 0 ≤ y2 →
  Z.to_nat (y1 / 8 * w + x1) = Z.to_nat (y2 / 8 * w + x2) →
  y1 `mod` 8 = y2 `mod` 8 →
  x1 = x2 ∧ y1 = y2.
Proof.
  intros Hx1 Hx2 Hy1 Hy2 Hpos Hbit.
  assert (0 ≤ y1 / 8) by (apply Z.div_pos; lia).
  assert (0 ≤ y2 / 8) by (apply Z.div_pos; lia).
  assert (y1 / 8 * w + x1 = y2 / 8 * w + x2) as Heq by nia.
  assert (y1 / 8 = y2 / 8) as Hpage by nia.
  split; [nia|].
  rewrite (Z.div_mod y1 8), (Z.div_mod y2 8) by lia. congruence.
Qed.

Lemma set_buffer_twice (buf buf' : list Z) (st : state) :
  set_buffer buf (set_buffer buf' st) = set_buffer buf st.
Proof. reflexivity. Qed.

Lemma geometry_set_buffer (buf : list Z) (st : state) :
  length buf = length (_buffer (self st)) → geometry st → geometry (set_buffer buf st).
Proof. intros Hl (? & ? & ?). unfold geometry. simpl. by rewrite Hl. Qed.

Lemma set_pixel_on_geometry (st : state) (x y color : Z) :
  geometry st →
  0 ≤ x < width (self st) → 0 ≤ y < height (self st) →
  ∃ b, _buffer (self st) !! Z.to_nat (y / 8 * width (self st) + x) = Some b ∧
       set_pixel x y color st =
         (inl tt,
          set_buffer
            (<[Z.to_nat (y / 8 * width (self st) + x) :=
                 write_bit color (y `mod` 8) b]> (_buffer (self st))) st).
Proof. apply set_pixel_in_bounds_eq. Qed.

(** X7. On a display with whole pages, writes to two different pixels of
    the display commute: both orders complete and leave the same buffer,
    also when the two pixels share a byte. *)
Theorem set_pixel_writes_commute (st : state) (x1 y1 c1 x2 y2 c2 : Z) :
  geometry st →
  0 ≤ x1 < width (self st) → 0 ≤ y1 < height (self st) →
  0 ≤ x2 < width (self st) → 0 ≤ y2 < height (self st) →
  (x1, y1) ≠ (x2, y2) →
  (set_pixel x1 y1 c1 ;; set_pixel x2 y2 c2) st =
    (set_pixel x2 y2 c2 ;; set_pixel x1 y1 c1) st ∧
  ∃ st', (set_pixel x1 y1 c1 ;; set_pixel x2 y2 c2) st = (inl tt, st').
Proof.
  intros Hg Hx1 Hy1 Hx2 Hy2 Hne.
  assert (0 ≤ y1 `mod` 8 ∧ 0 ≤ y2 `mod` 8) as [Hb1 Hb2]
    by (split; apply Z.mod_pos_bound; lia).
  unfold bind.
  destruct (set_pixel_on_geometry st x1 y1 c1 Hg Hx1 Hy1) as (b1 & Hl1 & ->).
  destruct (set_pixel_on_geometry st x2 y2 c2 Hg Hx2 Hy2) as (b2 & Hl2 & ->).
  set (i1 := Z.to_nat (y1 / 8 * width (self st) + x1)) in *.
  set (i2 := Z.to_nat (y2 / 8 * width (self st) + x2)) in *.
  pose proof (lookup_lt_Some _ _ _ Hl1) as Hlt1.
  pose proof (lookup_lt_Some _ _ _ Hl2) as Hlt2.
  destruct (set_pixel_on_geometry (set_buffer (<[i1 := write_bit c1 (y1 `mod` 8) b1]>
                                     (_buffer (self st))) st) x2 y2 c2)
    as (b2' & Hl2' & ->); [apply geometry_set_buffer; [apply length_insert|done]|done..|].
  destruct (set_pixel_on_geometry (set_buffer (<[i2 := write_bit c2 (y2 `mod` 8) b2]>
                                     (_buffer (self st))) st) x1 y1 c1)
    as (b1' & Hl1' & ->); [apply geometry_set_buffer; [apply length_insert|done]|done..|].
  simpl in *. fold i1 i2 in Hl1', Hl2' |- *.
  split; [|by eexists]. rewrite !set_buffer_twice. do 2 f_equal.
  destruct (decide (i1 = i2)) as [Heq|Hdiff].
  - assert (y1 `mod` 8 ≠ y2 `mod` 8) as Hbits.
    { intros Hbit. destruct (pixel_position_inj (width (self st)) x1 y1 x2 y2);
        try done; try lia. congruence. }
    rewrite <- Heq in *.
    rewrite list_lookup_insert_eq in Hl1', Hl2' by done.
    assert (b2 = b1) as -> by congruence.
    injection Hl1' as <-. injection Hl2' as <-.
    rewrite !list_insert_insert_eq. f_equal. by apply write_bit_swap.
  - rewrite list_lookup_insert_ne in Hl1', Hl2' by done.
    assert (b2' = b2) as -> by congruence. assert (b1' = b1) as -> by congruence.
    by apply list_insert_insert_ne.
Qed.

(** X8. When the height is not a multiple of 8, the rows from 8*pages up
    to height-1 pass the bounds check of set_pixel but have no byte in the
    buffer: for every column of the display set_pixel raises IndexError
    there, whatever the colour, and changes nothing. *)
Theorem set_pixel_below_last_page_raises (st : state) (x y color : Z) :
  buffer_sized st →
  pages (self st) = height (self st) / 8 →
  0 ≤ x < width (self st) → 0 ≤ y < height (self st) →
  8 * pages (self st) ≤ y →
  set_pixel x y color st = (inr IndexError, st).
Proof.
  intros Hsz Hp Hx Hy Hrow.
  assert (0 ≤ pages (self st)) as Hp0 by (rewrite Hp; apply Z.div_pos; lia).
  assert (pages (self st) ≤ y / 8) as Hpage by (apply Z.div_le_lower_bound; lia).
  destruct (set_pixel_cases x y color st) as [[Hout _]|[(_ & _ & _ & ->)|H]];
    [lia|done|].
  destruct H as (i & b & _ & _ & Hi & _ & _). exfalso.
  unfold buffer_sized in Hsz. unfold py_index in Hi. rewrite Hsz in Hi.
  assert (0 ≤ width (self st) * pages (self st)) as Hn by nia.
  rewrite Z2Nat.id in Hi by done.
  assert (width (self st) * pages (self st) ≤ y / 8 * width (self st)) by nia.
  repeat case_bool_decide; try done; lia.
Qed.

(** Row 8 of the 64x12 display has no byte. *)
Lemma set_pixel_uneven_row_8 :
  buffer_sized uneven ∧ pages (self uneven) = height (self uneven) / 8 ∧
  0 ≤ 0 < width (self uneven) ∧ 0 ≤ 8 < height (self uneven) ∧
  8 * pages (self uneven) ≤ 8 ∧
  set_pixel 0 8 1 uneven = (inr IndexError, uneven).
Proof.
  assert (buffer_sized uneven) as Hsz by reflexivity.
  assert (pages (self uneven) = height (self uneven) / 8) as Hp by reflexivity.
  assert (0 ≤ 0 < width (self uneven)) as Hx by (simpl; lia).
  assert (0 ≤ 8 < height (self uneven)) as Hy by (simpl; lia).
  assert (8 * pages (self uneven) ≤ 8) as Hrow by (vm_compute; discriminate).
  repeat (split; [assumption|]).
  exact (set_pixel_below_last_page_raises uneven 0 8 1 Hsz Hp Hx Hy Hrow).
Defined.

(** Pixels (5,10) and (5,11) of the striped display share byte 69. *)
Lemma set_pixel_commute_striped :
  geometry striped ∧ (5, 10) ≠ (5, 11) ∧
  (set_pixel 5 10 1 ;; set_pixel 5 11 0) striped =
    (set_pixel 5 11 0 ;; set_pixel 5 10 1) striped.
Proof.
  assert ((5, 10) ≠ (5, 11)) as Hne by discriminate.
  split; [exact striped_geometry|]. split; [exact Hne|].
  refine (proj1 (set_pixel_writes_commute striped 5 10 1 5 11 0
                   striped_geometry _ _ _ _ Hne)); simpl; lia.
Defined.

(** ** Methods that only touch the buffer *)

Lemma triple_weaken {S A} (P : S → Prop) (m : Py S A) (Q Q' : A → S → Prop)
    (E E' : PyExc → S → Prop) :
  triple P m Q' E' →
  (∀ a s, Q' a s → Q a s) → (∀ e s, E' e s → E e s) →
  triple P m Q E.
Proof.
  intros Hm HQ HE s Hs. specialize (Hm s Hs).
  destruct (m s) as [[a|e] s']; auto.
Qed.

Section BufferOps.

(** [J] is kept by set_pixel and holds after clear from any state in [P]. *)
Variable J P : state → Prop.
Hypothesis J_set_pixel : ∀ x y color,
  triple J (set_pixel x y color) (λ _, J) (λ e st, e = IndexError ∧ J st).
Hypothesis J_clear : ∀ st, P st → J (snd (clear st)).

Lemma image_establishes convert resize (img : Image) :
  triple P (image convert resize img) (λ _, J) (λ e st, e = IndexError ∧ J st).
Proof.
  intros s Hs. unfold image. cbv zeta.
  match goal with
  | |- context [bind clear ?k] =>
      apply (triple_bind (eq s) clear k (λ _, J) (λ _, J)
               (λ e st, e = IndexError ∧ J st)); [| |done]
  end.
  - intros s' <-. by apply J_clear.
  - intros u s1 Hs1. apply (triple_for_each J); [|done].
    intros y _ s2 Hs2. apply (triple_for_each J); [|done].
    intros x _. case_bool_decide; [apply J_set_pixel|].
    intros s3 Hs3. done.
Qed.

End BufferOps.

Lemma only_buffer_set_pixel (st0 : state) (x y color : Z) :
  triple (only_buffer st0) (set_pixel x y color)
    (λ _, only_buffer st0) (λ e st, e = IndexError ∧ only_buffer st0 st).
Proof.
  intros s [buf ->].
  destruct (set_pixel_cases x y color (set_buffer buf st0))
    as [[_ ->]|[(_ & _ & _ & ->)|(i & b & _ & _ & _ & _ & ->)]].
  - by exists buf.
  - split; [done|]. by exists buf.
  - by eexists.
Qed.

Lemma only_buffer_clear (st0 st : state) :
  only_buffer st0 st → only_buffer st0 (snd (clear st)).
Proof. intros [buf ->]. by eexists. Qed.




(** With a PIL whose operations return, image_pil is image. *)
Lemma image_pil_returning (convert : string → Image → Image)
    (resize : Z * Z → Image → Image) (img : Image) (st : state) :
  image_pil (λ m i, inl (convert m i)) (λ sz i, inl (resize sz i)) img st =
    image convert resize img st.
Proof.
  unfold image_pil, image. cbv zeta.
  destruct (bool_decide (mode img ≠ "1"%string));
    by destruct (bool_decide (size _ ≠ _)).
Qed.


(** A 128x64 picture on the 64x32 striped display, with a PIL whose resize
    raises: image raises the ValueError and the stripes are still there. *)
Example image_when_resize_raises :
  image_pil (@refuses string) (@refuses (Z * Z)) wide striped =
    (inr (Raised "ValueError"), striped).
Proof. reflexivity. Qed.

(** ** The object the constructor returns *)

Lemma leaves_state (o0 : attrs) {A} (m : state → Py state A) :
  (∀ st, leaves o0 (m st)) → leaves o0 (λ st, m st st).
Proof. intros Hm s Hs. by apply (Hm s). Qed.

Lemma leaves_then (o0 : attrs) {A B} (m : Py state A) (f : A → Py state B)
    (Q : B → state → Prop) :
  leaves o0 m →
  (∀ a, triple (λ st, self st = o0) (f a) Q (λ e _, e = OSError)) →
  triple (λ st, self st = o0) (bind m f) Q (λ e _, e = OSError).
Proof.
  intros Hm Hf. eapply triple_bind; [|apply Hf].
  eapply triple_weaken; [apply Hm|done|by intros ? ? []].
Qed.

Lemma _init_display_object nack (o0 : attrs) :
  let o1 := self (set_buffer (py_list_mul 0 (width o0 * pages o0))
                    {| self := o0; wire := [] |}) in
  triple (λ st, self st = o0) (_init_display nack)
    (λ _ st, self st = o1) (λ e _, e = OSError).
Proof.
  intros o1. unfold _init_display.
  repeat (apply leaves_then;
          [ first
              [ apply leaves__command
              | apply (leaves_state o0 (λ st, _command nack _)); intros ?;
                apply leaves__command ]
          | intros ? ]).
  apply leaves_then.
  { intros s Hs. case_bool_decide;
      by apply (leaves_bind o0 (_command nack _) (λ _, _command nack _)
                  (leaves__command nack o0 _) (λ _, leaves__command nack o0 _)). }
  intros ?.
  repeat (apply leaves_then;
          [ first
              [ apply leaves__command
              | apply (leaves_state o0 (λ st, _command nack _)); intros ?;
                apply leaves__command ]
          | intros ? ]).
  eapply triple_bind with (Q := λ _ st, self st = o1).
  - intros s Hs. unfold clear. subst o1. simpl. by rewrite Hs.
  - intros ?. eapply triple_weaken; [apply (leaves_display nack o1)|done|by intros ? ? []].
Qed.

Lemma __init__object nack
    (bus_ address_ width_ height_ rotate_ : Z) (w w' : list event) (o : attrs) :
  __init__ nack bus_ address_ width_ height_ rotate_ w = (inl o, w') →
  o = {| bus := bus_; address := address_; width := width_; height := height_;
         rotate := rotate_; pages := height_ / 8;
         _buffer := py_list_mul 0 (width_ * (height_ / 8)) |}.
Proof.
  unfold __init__. destruct (nack w (SMBus bus_)); [done|].
  match goal with |- context [_init_display nack ?s] => set (st0 := s) end.
  pose proof (_init_display_object nack (self st0) st0 eq_refl) as Hobj.
  destruct (_init_display nack st0) as [[[]|e] st']; [|done].
  intros [= <- <-]. rewrite Hobj. reflexivity.
Qed.

(** X10. Whenever the constructor returns, on any transport, the object
    it returns has the arguments as its attributes, pages = height // 8 and
    a buffer of [0] * (width*pages): every byte zero, every pixel off. *)
Theorem constructor_returns_zeroed_object nack
    (bus_ address_ width_ height_ rotate_ : Z) (w w' : list event) (o : attrs) :
  __init__ nack bus_ address_ width_ height_ rotate_ w = (inl o, w') →
  o = {| bus := bus_; address := address_; width := width_; height := height_;
         rotate := rotate_; pages := height_ / 8;
         _buffer := py_list_mul 0 (width_ * (height_ / 8)) |} ∧
  Forall (eq 0) (_buffer o) ∧
  ∀ x y, lit {| self := o; wire := w' |} x y = false.
Proof.
  intros Hinit. apply __init__object in Hinit as ->.
  split; [reflexivity|]. split; [apply py_list_mul_all|].
  intros x y. unfold lit, bit_at, py_list_mul. simpl.
  destruct (replicate _ 0 !! _) as [b|] eqn:Hb; [|done].
  apply lookup_replicate in Hb as [-> _]. apply Z.bits_0.
Qed.

(** The object of SSD1315() on a transport that accepts every write. *)
Lemma constructor_default_object :
  ∃ o w', __init__ reliable 1 0x3C 64 32 0 [] = (inl o, w') ∧
          pages o = 4 ∧ _buffer o = replicate 256 0.
Proof.
  destruct (__init__ reliable 1 0x3C 64 32 0 []) as [[o|e] w'] eqn:Hrun;
    [|by vm_compute in Hrun].
  exists o, w'. split; [reflexivity|].
  destruct (constructor_returns_zeroed_object reliable 1 0x3C 64 32 0 [] w' o Hrun)
    as [-> _].
  split; reflexivity.
Defined.

(** ** Bytes *)





(** ** Pixels *)

Lemma lit_after_set_pixel (st : state) (x y color : Z) :
  geometry st →
  0 ≤ x < width (self st) → 0 ≤ y < height (self st) →
  ∃ buf,
    set_pixel x y color st = (inl tt, set_buffer buf st) ∧
    length buf = length (_buffer (self st)) ∧
    (color ≠ 0 → grows st (set_buffer buf st)) ∧
    ∀ x' y', 0 ≤ x' < width (self st) → 0 ≤ y' < height (self st) →
      lit (set_buffer buf st) x' y' =
        if bool_decide (x' = x ∧ y' = y) then bool_decide (color ≠ 0)
        else lit st x' y'.
Proof.
  intros Hg Hx Hy.
  destruct (set_pixel_on_geometry st x y color Hg Hx Hy) as (b & Hb & ->).
  assert (0 ≤ y `mod` 8) by (apply Z.mod_pos_bound; lia).
  eexists. split; [done|]. split; [apply length_insert|]. split.
  { intros Hc j k. simpl. rewrite (bit_at_insert _ _ _ b) by done.
    rewrite testbit_write_bit by done. rewrite (bool_decide_true (color ≠ 0)) by done.
    case_bool_decide as Hj; [|done]. case_bool_decide; [done|].
    unfold bit_at. by rewrite Hj, Hb. }
  intros x' y' Hx' Hy'. unfold lit. simpl.
  rewrite (bit_at_insert _ _ _ b) by done.
  rewrite testbit_write_bit by done.
  destruct (decide (x' = x ∧ y' = y)) as [[-> ->]|Hne].
  - rewrite (bool_decide_true (_ = _)), (bool_decide_true (_ ∧ _)) by done.
    by rewrite bool_decide_true.
  - rewrite (bool_decide_false (x' = x ∧ y' = y)) by done.
    case_bool_decide as Hpos; [|done].
    case_bool_decide as Hbit; [|unfold bit_at; by rewrite Hpos, Hb].
    destruct (pixel_position_inj (width (self st)) x' y' x y); try done; lia.
Qed.

(** X12. On a display with whole pages, set_pixel(x,y,color) inside the
    display completes, makes pixel (x,y) read as the colour written (on for
    any non-zero colour, off for 0) and leaves every other pixel of the
    display as it was: no two pixels share a bit of the buffer.  The
    display keeps its geometry and the bus is not used. *)
Theorem set_pixel_changes_one_pixel (st : state) (x y color : Z) :
  geometry st →
  0 ≤ x < width (self st) → 0 ≤ y < height (self st) →
  ∃ st',
    set_pixel x y color st = (inl tt, st') ∧
    geometry st' ∧ wire st' = wire st ∧
    lit st' x y = bool_decide (color ≠ 0) ∧
    ∀ x' y', 0 ≤ x' < width (self st) → 0 ≤ y' < height (self st) →
      (x', y') ≠ (x, y) → lit st' x' y' = lit st x' y'.
Proof.
  intros Hg Hx Hy.
  destruct (lit_after_set_pixel st x y color Hg Hx Hy) as (buf & -> & Hl & _ & Hlit).
  eexists. split; [done|]. split; [by apply geometry_set_buffer|].
  split; [done|]. split.
  - rewrite Hlit by done. by rewrite bool_decide_true.
  - intros x' y' Hx' Hy' Hne. rewrite Hlit by done.
    rewrite bool_decide_false; [done|]. intros [-> ->]. done.
Qed.

(** Pixel (5,10) of the striped display is off; writing 1 turns it on and
    leaves its neighbour (5,11) on. *)
Lemma set_pixel_striped_pixel :
  geometry striped ∧
  ∃ st', set_pixel 5 10 1 striped = (inl tt, st') ∧
         lit striped 5 10 = false ∧ lit st' 5 10 = true ∧
         lit st' 5 11 = true.
Proof.
  split; [exact striped_geometry|].
  destruct (set_pixel_changes_one_pixel striped 5 10 1 striped_geometry)
    as (st' & Hrun & _ & _ & Hon & Hothers); [simpl; lia..|].
  exists st'. split; [exact Hrun|]. split; [reflexivity|]. split; [exact Hon|].
  rewrite Hothers; [reflexivity|simpl; lia|simpl; lia|discriminate].
Defined.

(** ** Loops that complete and cover their range *)

Lemma for_each_covers {S A} (I : S → Prop) (R : S → S → Prop)
    (M : A → S → Prop) (xs : list A) (body : A → Py S unit) :
  (∀ s, R s s) → (∀ s1 s2 s3, R s1 s2 → R s2 s3 → R s1 s3) →
  (∀ x s s', M x s → I s → I s' → R s s' → M x s') →
  (∀ x s, x ∈ xs → I s →
     ∃ s', body x s = (inl tt, s') ∧ I s' ∧ R s s' ∧ M x s') →
  ∀ s, I s →
    ∃ s', for_each xs body s = (inl tt, s') ∧ I s' ∧ R s s' ∧
          ∀ x, x ∈ xs → M x s'.
Proof.
  intros Hrefl Htrans Hstable. induction xs as [|x xs IH]; intros Hbody s Hs.
  - exists s. repeat split; try done. intros x Hx. by apply not_elem_of_nil in Hx.
  - destruct (Hbody x s) as (s1 & Hrun1 & HI1 & HR1 & HM1); [by left|done|].
    destruct (IH (λ y t Hy, Hbody y t (list_elem_of_further _ _ _ Hy)) s1 HI1)
      as (s2 & Hrun2 & HI2 & HR2 & HM2).
    exists s2. simpl. unfold bind. rewrite Hrun1, Hrun2.
    repeat split; try done; [by eapply Htrans|].
    intros y [->|Hy]%elem_of_cons; [by eapply Hstable|by apply HM2].
Qed.

Lemma py_range_elem_of (n x : Z) : 0 ≤ x < n → x ∈ py_range 0 n 1.
Proof.
  intros Hx. unfold py_range. apply list_elem_of_fmap.
  exists (Z.to_nat x). split; [lia|].
  apply elem_of_seq. rewrite Z.div_1_r. lia.
Qed.

Lemma grows_refl (st : state) : grows st st.
Proof. by intros j k. Qed.

Lemma grows_trans (s1 s2 s3 : state) : grows s1 s2 → grows s2 s3 → grows s1 s3.
Proof. intros H12 H23 j k Hbit. by apply H23, H12. Qed.

(** ** image, pixel by pixel *)

Section ImageBits.

Variable st0 : state.
Hypothesis whole_pages : geometry st0.
Variable pixels : Z → Z → Z.

Lemma marked_stable (x y : Z) (s s' : state) :
  marked pixels x y s → sound st0 pixels s → sound st0 pixels s' → grows s s' →
  marked pixels x y s'.
Proof.
  intros Hm [Hd _] [Hd' _] Hg Hpx. specialize (Hm Hpx).
  destruct (drawn_dims st0 s Hd) as [Hw _].
  destruct (drawn_dims st0 s' Hd') as [Hw' _].
  unfold lit in *. rewrite Hw'. rewrite Hw in Hm. by apply Hg.
Qed.

Lemma draw_pixel (x y : Z) (st : state) :
  0 ≤ x < width (self st0) → 0 ≤ y < height (self st0) →
  sound st0 pixels st →
  ∃ st',
    (if bool_decide (pixels x y ≠ 0) then set_pixel x y 1 else ret tt) st =
      (inl tt, st') ∧
    sound st0 pixels st' ∧ grows st st' ∧ marked pixels x y st'.
Proof.
  intros Hx Hy [Hd Hsound]. destruct (drawn_dims st0 st Hd) as [Hw Hh].
  case_bool_decide as Hpx.
  - destruct (lit_after_set_pixel st x y 1 (drawn_geometry st0 whole_pages st Hd))
      as (buf & -> & Hl & Hgrows & Hlit); [lia..|].
    eexists. split; [done|]. split; [split|split].
    + destruct Hd as [Hs Hwire]. split; [|done]. rewrite <- Hs.
      unfold shape. simpl. by rewrite Hl.
    + intros x' y' Hx' Hy'. rewrite Hlit by lia.
      destruct (decide (x' = x ∧ y' = y)) as [[-> ->]|Hne]; [done|].
      rewrite bool_decide_false by done. by apply Hsound.
    + by apply Hgrows.
    + intros _. rewrite Hlit by lia.
      rewrite (bool_decide_true (_ ∧ _)) by done. reflexivity.
  - exists st. split; [done|]. split; [by split|].
    split; [apply grows_refl|]. intros Hpx'. by destruct Hpx.
Qed.

Lemma draw_row (y : Z) (st : state) :
  0 ≤ y < height (self st0) →
  sound st0 pixels st →
  ∃ st',
    for_each (py_range 0 (width (self st)) 1) (λ x,
      if bool_decide (pixels x y ≠ 0) then set_pixel x y 1 else ret tt) st =
      (inl tt, st') ∧
    sound st0 pixels st' ∧ grows st st' ∧
    ∀ x, 0 ≤ x < width (self st0) → marked pixels x y st'.
Proof.
  intros Hy Hst. destruct (drawn_dims st0 st (proj1 Hst)) as [Hw Hh].
  destruct (for_each_covers (sound st0 pixels) grows
              (λ x s, marked pixels x y s)
              (py_range 0 (width (self st)) 1)
              (λ x, if bool_decide (pixels x y ≠ 0) then set_pixel x y 1 else ret tt)
              grows_refl grows_trans)
    with (s := st) as (st' & Hrun & Hs' & Hg & Hm); try done.
  - intros x s s'. apply marked_stable.
  - intros x s Hx%elem_of_py_range Hs. apply draw_pixel; [lia|done..].
  - exists st'. repeat split; try done; try apply Hs'.
    intros x Hx. apply Hm, py_range_elem_of. lia.
Qed.

Lemma draw_rows (st : state) :
  sound st0 pixels st →
  ∃ st',
    for_each (py_range 0 (height (self st)) 1) (λ y st,
      for_each (py_range 0 (width (self st)) 1) (λ x,
        if bool_decide (pixels x y ≠ 0) then set_pixel x y 1 else ret tt) st) st =
      (inl tt, st') ∧
    sound st0 pixels st' ∧
    ∀ x y, 0 ≤ x < width (self st0) → 0 ≤ y < height (self st0) →
           marked pixels x y st'.
Proof.
  intros Hst. destruct (drawn_dims st0 st (proj1 Hst)) as [Hw Hh].
  destruct (for_each_covers (sound st0 pixels) grows
              (λ y s, ∀ x, 0 ≤ x < width (self st0) → marked pixels x y s)
              (py_range 0 (height (self st)) 1)
              (λ y st,
                 for_each (py_range 0 (width (self st)) 1) (λ x,
                   if bool_decide (pixels x y ≠ 0) then set_pixel x y 1
                   else ret tt) st)
              grows_refl grows_trans)
    with (s := st) as (st' & Hrun & Hs' & Hg & Hm); try done.
  - intros y s s' Hm Hs Hs' Hg x Hx.
    apply (marked_stable x y s s'); [by apply Hm|done..].
  - intros y s Hy%elem_of_py_range Hs. apply draw_row; [lia|done].
  - exists st'. repeat split; try done; try apply Hs'.
    intros x y Hx Hy. apply Hm; [|done]. apply py_range_elem_of. lia.
Qed.

Lemma cleared_sound : sound st0 pixels (snd (clear st0)).
Proof.
  destruct (drawn_clear st0 whole_pages st0) as [Hs Hw]; [done|].
  split; [done|]. intros x y _ _. unfold lit, bit_at, clear, py_list_mul. simpl.
  destruct (replicate _ 0 !! _) as [b|] eqn:Hb; [|done].
  apply lookup_replicate in Hb as [-> _]. by rewrite Z.bits_0.
Qed.

End ImageBits.

Lemma drawn_only_buffer (st0 st : state) : drawn st0 st → only_buffer st0 st.
Proof.
  destruct st0 as [[] ?], st as [[] ?]. unfold drawn, shape. simpl.
  intros [[= -> -> -> -> -> -> _] ->]. by eexists.
Qed.

Lemma image_unfold convert resize (img : Image) (st : state) :
  image convert resize img st =
    (clear ;;
     (λ st', for_each (py_range 0 (height (self st')) 1) (λ y st',
        for_each (py_range 0 (width (self st')) 1) (λ x,
          if bool_decide (load (fitted convert resize st img) x y ≠ 0)
          then set_pixel x y 1 else ret tt) st') st')) st.
Proof. reflexivity. Qed.

Lemma image_on_geometry convert resize (img : Image) (st : state) :
  geometry st →
  ∃ st',
    image convert resize img st = (inl tt, st') ∧
    geometry st' ∧ only_buffer st st' ∧
    ∀ x y, 0 ≤ x < width (self st) → 0 ≤ y < height (self st) →
      lit st' x y = bool_decide (load (fitted convert resize st img) x y ≠ 0).
Proof.
  intros Hg. rewrite image_unfold. unfold bind.
  pose proof (cleared_sound st Hg (load (fitted convert resize st img))) as Hc.
  destruct (clear st) as [[[]|e] st1] eqn:Hclear; [|done]. simpl in Hc.
  destruct (draw_rows st Hg _ st1 Hc) as (st' & -> & [Hd Hsound] & Hmarked).
  exists st'. split; [done|].
  split; [by eapply drawn_geometry|]. split.
  - by apply drawn_only_buffer.
  - intros x y Hx Hy. destruct (lit st' x y) eqn:Hlit.
    + symmetry. apply bool_decide_eq_true. by apply Hsound.
    + symmetry. apply bool_decide_eq_false. intros Hpx.
      rewrite (Hmarked x y Hx Hy Hpx) in Hlit. done.
Qed.



(** ** Canvas, end to end *)

Lemma image_only_buffer convert resize (img : Image) (st : state) :
  only_buffer st (snd (image convert resize img st)) ∧
  ∀ e, fst (image convert resize img st) = inr e → e = IndexError.
Proof.
  assert (only_buffer st st) as Hst by (exists (_buffer (self st)); by destruct st as [[]]).
  pose proof (image_establishes (only_buffer st) (only_buffer st)
                (only_buffer_set_pixel st) (only_buffer_clear st)
                convert resize img st Hst) as H.
  destruct (image convert resize img st) as [[[]|e] s']; [done|].
  destruct H as [-> ?]. split; [done|]. by intros ? [= <-].
Qed.

(** C7, amended. Whatever the block does, and whether it completes or
    raises, the exit ingests the drawing surface into the buffer of the
    display the block left, once and without using the bus.  When the
    ingest completes, display() runs once on the result: the state after
    the with statement is the state that display() leaves, an exception of
    display() is the one the caller sees, and on a transport that accepts
    every write the bus log grows by exactly the traffic of one display()
    of the ingested buffer.  When the ingest raises, which it only does
    with IndexError, display() does not run: the with statement raises the
    IndexError and ends in the state where the ingest stopped, with nothing
    sent on exit.  On a display with whole pages the ingest completes, and
    the ingested buffer holds the surface: pixel (x,y) is on if and only if
    the surface pixel is non-zero. *)
Theorem canvas_exit_ingests_then_commits_once
    nack convert resize (body : ImageDraw → Py Canvas.scope unit) (dev : state) :
  let after_body := snd (body Draw (Canvas.__init__ dev)) in
  let panel := Canvas.device after_body in
  let surface := fitted convert resize panel (Canvas.image after_body) in
  let ingest := image convert resize (Canvas.image after_body) panel in
  (∀ ingested, ingest = (inl tt, ingested) →
     only_buffer panel ingested ∧
     snd (Canvas.with_canvas nack convert resize body dev) =
       snd (display nack ingested) ∧
     (∀ e, fst (display nack ingested) = inr e →
           fst (Canvas.with_canvas nack convert resize body dev) = inr e) ∧
     (fst (display nack ingested) = inl tt →
      fst (Canvas.with_canvas nack convert resize body dev) =
        fst (body Draw (Canvas.__init__ dev))) ∧
     Canvas.with_canvas reliable convert resize body dev =
       (fst (body Draw (Canvas.__init__ dev)),
        sent (display_traffic (self ingested)) ingested)) ∧
  (∀ e' stopped, ingest = (inr e', stopped) →
     e' = IndexError ∧ only_buffer panel stopped ∧
     Canvas.with_canvas nack convert resize body dev = (inr e', stopped)) ∧
  (geometry panel →
   ∃ ingested,
     ingest = (inl tt, ingested) ∧
     ∀ x y, 0 ≤ x < width (self panel) → 0 ≤ y < height (self panel) →
       lit ingested x y = bool_decide (load surface x y ≠ 0)).
Proof.
  intros after_body panel surface ingest.
  subst ingest surface panel after_body.
  rewrite !with_canvas_unfold.
  destruct (body Draw (Canvas.__init__ dev)) as [r c1]. simpl.
  pose proof (image_only_buffer convert resize (Canvas.image c1) (Canvas.device c1))
    as [Hbuf Hexc].
  split; [|split].
  - intros ingested Himg. rewrite Himg in *. simpl in Hbuf.
    rewrite display_reliable.
    split; [done|]. split; [|split; [|split; [|done]]].
    + by destruct (display nack ingested) as [[[]|e2] shown].
    + intros e. by destruct (display nack ingested) as [[[]|e2] shown]; intros [= ->].
    + by destruct (display nack ingested) as [[[]|e2] shown].
  - intros e' stopped Himg. rewrite Himg in *. simpl in *.
    split; [by apply Hexc|done].
  - intros Hg.
    destruct (image_on_geometry convert resize (Canvas.image c1)
                (Canvas.device c1) Hg) as (ingested & Himg & _ & _ & Hlit).
    by exists ingested.
Qed.

(** C7 as stated fails: on the 64x12 display the constructor returns, a
    block that sets the surface pixel (0, 8) completes, the ingest on exit
    raises IndexError, and display() is not run: nothing is sent on exit,
    so the number of commits is 0. *)
Lemma canvas_exit_without_commit_on_64x12_display :
  ∃ o w stopped,
    __init__ reliable 1 0x3C 64 12 0 [] = (inl o, w) ∧
    fst (draws_in_row_8 Draw (Canvas.__init__ {| self := o; wire := w |})) = inl tt ∧
    Canvas.with_canvas reliable (@unchanged string) (@unchanged (Z * Z))
      draws_in_row_8 {| self := o; wire := w |} = (inr IndexError, stopped) ∧
    wire stopped = w.
Proof.
  eexists _, _, _. split; [vm_compute; reflexivity|].
  split; [reflexivity|]. split; [vm_compute; reflexivity|]. reflexivity.
Qed.

(** A block that raises after drawing a point on the striped display: the
    point is ingested and the buffer displayed all the same, once. *)
Lemma canvas_exit_after_raise :
  geometry (Canvas.device (snd (draws_then_raises Draw (Canvas.__init__ striped)))) ∧
  ∃ ingested,
    image (@unchanged string) (@unchanged (Z * Z))
      (Canvas.image (snd (draws_then_raises Draw (Canvas.__init__ striped))))
      (Canvas.device (snd (draws_then_raises Draw (Canvas.__init__ striped)))) =
      (inl tt, ingested) ∧
    lit ingested 32 16 = true ∧
    Canvas.with_canvas reliable (@unchanged string) (@unchanged (Z * Z))
      draws_then_raises striped =
      (inr (Raised "ValueError"), sent (display_traffic (self ingested)) ingested).
Proof.
  split; [exact striped_geometry|].
  pose proof (canvas_exit_ingests_then_commits_once reliable
                (@unchanged string) (@unchanged (Z * Z)) draws_then_raises striped)
    as (Hdone & _ & Hwhole).
  destruct (Hwhole striped_geometry) as (ingested & Himg & Hlit).
  exists ingested. split; [exact Himg|].
  split; [rewrite Hlit by (simpl; lia); reflexivity|].
  exact (proj2 (proj2 (proj2 (proj2 (Hdone ingested Himg))))).
Defined.

(** X14. A block that completes on a display with whole pages, over a
    transport that accepts every write: the with statement completes, the
    buffer holds exactly the surface the block drew (pixel (x,y) on iff the
    surface pixel is non-zero), and the bus received, after whatever the
    block itself sent, one display() of that buffer, whose payload is the
    buffer. *)
Theorem canvas_shows_what_was_drawn
    convert resize (body : ImageDraw → Py Canvas.scope unit) (dev : state) :
  let after_body := snd (body Draw (Canvas.__init__ dev)) in
  let surface := fitted convert resize (Canvas.device after_body)
                   (Canvas.image after_body) in
  fst (body Draw (Canvas.__init__ dev)) = inl tt →
  geometry (Canvas.device after_body) →
  ∃ shown,
    Canvas.with_canvas reliable convert resize body dev = (inl tt, shown) ∧
    (∀ x y, 0 ≤ x < width (self shown) → 0 ≤ y < height (self shown) →
       lit shown x y = bool_decide (load surface x y ≠ 0)) ∧
    wire shown =
      wire (Canvas.device after_body) ++ (Sent <$> display_traffic (self shown)) ∧
    payload (Sent <$> display_traffic (self shown)) = _buffer (self shown).
Proof.
  intros after_body surface Hok Hg. subst after_body surface.
  rewrite with_canvas_unfold.
  destruct (body Draw (Canvas.__init__ dev)) as [r c1]. simpl in *. subst r.
  destruct (image_on_geometry convert resize (Canvas.image c1)
              (Canvas.device c1) Hg) as (st' & -> & Hg' & [buf ->] & Hlit).
  rewrite display_reliable. eexists. split; [done|].
  split; [|split; [done|apply payload_display_traffic]].
  intros x y Hx Hy. by apply Hlit.
Qed.

(** A point drawn at (32,16) on the striped display is what the panel
    shows afterwards. *)
Lemma canvas_shows_the_point :
  fst (draws_point Draw (Canvas.__init__ striped)) = inl tt ∧
  geometry (Canvas.device (snd (draws_point Draw (Canvas.__init__ striped)))) ∧
  ∃ shown,
    Canvas.with_canvas reliable (@unchanged string) (@unchanged (Z * Z))
      draws_point striped = (inl tt, shown) ∧
    lit shown 32 16 = true ∧ lit shown 5 11 = false.
Proof.
  assert (fst (draws_point Draw (Canvas.__init__ striped)) = inl tt) as Hok
    by reflexivity.
  split; [exact Hok|]. split; [exact striped_geometry|].
  destruct (canvas_shows_what_was_drawn (@unchanged string) (@unchanged (Z * Z))
              draws_point striped Hok striped_geometry)
    as (shown & Hrun & Hlit & _).
  exists shown. split; [exact Hrun|].
  assert (self shown = self (snd (Canvas.with_canvas reliable (@unchanged string)
                                   (@unchanged (Z * Z)) draws_point striped)))
    as Hself by (by rewrite Hrun).
  assert (width (self shown) = 64 ∧ height (self shown) = 32) as [Hw Hh]
    by (rewrite Hself; split; vm_compute; reflexivity).
  rewrite !Hlit by lia. split; reflexivity.
Defined.

(** X15. When the ingest raises in __exit__ (a surface pixel set in a row
    that has no byte, on a display whose height is not a multiple of 8),
    display() is not called: nothing is sent on exit, and the exception of
    the ingest is what the with statement raises, also in place of an
    exception of the block. *)
Theorem canvas_exit_stops_at_failed_ingest
    nack convert resize (body : ImageDraw → Py Canvas.scope unit) (dev : state)
    (e' : PyExc) :
  let after_body := snd (body Draw (Canvas.__init__ dev)) in
  fst (image convert resize (Canvas.image after_body) (Canvas.device after_body)) =
    inr e' →
  fst (Canvas.with_canvas nack convert resize body dev) = inr e' ∧
  e' = IndexError ∧
  wire (snd (Canvas.with_canvas nack convert resize body dev)) =
    wire (Canvas.device after_body).
Proof.
  intros after_body Hraise. subst after_body. rewrite with_canvas_unfold.
  destruct (body Draw (Canvas.__init__ dev)) as [r c1]. simpl in *.
  pose proof (image_only_buffer convert resize (Canvas.image c1) (Canvas.device c1))
    as [[buf Hbuf] Hexc].
  destruct (image convert resize (Canvas.image c1) (Canvas.device c1))
    as [[[]|e1] stopped]; [done|].
  simpl in *. injection Hraise as ->. rewrite Hbuf.
  split; [done|]. split; [by apply Hexc|done].
Qed.

(** The row-8 point on the 64x12 display: the ingest raises IndexError and
    nothing is sent on exit. *)
Lemma canvas_on_uneven_display :
  fst (image (@unchanged string) (@unchanged (Z * Z))
         (Canvas.image (snd (draws_in_row_8 Draw (Canvas.__init__ uneven))))
         (Canvas.device (snd (draws_in_row_8 Draw (Canvas.__init__ uneven))))) =
    inr IndexError ∧
  Canvas.with_canvas reliable (@unchanged string) (@unchanged (Z * Z))
    draws_in_row_8 uneven =
    (inr IndexError,
     snd (Canvas.with_canvas reliable (@unchanged string) (@unchanged (Z * Z))
            draws_in_row_8 uneven)) ∧
  wire (snd (Canvas.with_canvas reliable (@unchanged string) (@unchanged (Z * Z))
               draws_in_row_8 uneven)) = [].
Proof.
  assert (fst (image (@unchanged string) (@unchanged (Z * Z))
                 (Canvas.image (snd (draws_in_row_8 Draw (Canvas.__init__ uneven))))
                 (Canvas.device (snd (draws_in_row_8 Draw (Canvas.__init__ uneven))))) =
            inr IndexError) as Hraise by (vm_compute; reflexivity).
  split; [exact Hraise|].
  destruct (canvas_exit_stops_at_failed_ingest reliable (@unchanged string)
              (@unchanged (Z * Z)) draws_in_row_8 uneven IndexError Hraise)
    as (Hfst & _ & Hwire).
  split; [|exact Hwire].
  destruct (Canvas.with_canvas _ _ _ _ _) as [r s]. simpl in Hfst. by rewrite Hfst.
Defined.

(** ** examples/graphics_demo.py: the bouncing ball *)

Lemma in_court_start : in_court graphics_demo.start.
Proof. split; [exists 5; simpl; lia|simpl; lia]. Qed.

Lemma in_court_move (b : graphics_demo.ball) :
  in_court b → in_court (graphics_demo.move b).
Proof.
  intros [(k & Hx & Hdx) Hy]. unfold graphics_demo.move. split; simpl.
  - destruct Hdx as [[-> Hk]|[-> Hk]].
    + exists (k + 1). split; [lia|]. case_bool_decide; lia.
    + exists (k - 1). split; [lia|]. case_bool_decide; lia.
  - destruct Hy as [[-> Hy]|[-> Hy]]; case_bool_decide; lia.
Qed.

Lemma in_court_at_frame (n : nat) : in_court (graphics_demo.at_frame n).
Proof.
  induction n as [|n IH]; [apply in_court_start|].
  unfold graphics_demo.at_frame. simpl. by apply in_court_move.
Qed.

(** X16. The bouncing ball of demo_animation never leaves the court: at
    every pass of the loop, however long it ran, the centre is within
    [2,60] x [3,28] and moves by 2 columns and 1 row, so the ellipse drawn
    overhangs the 64x32 screen by at most one column on the left; and the
    ellipses of the 50 passes the demo makes all lie on the screen. *)
Theorem bouncing_ball_stays_in_court :
  (∀ n, let b := graphics_demo.at_frame n in
        2 ≤ graphics_demo.x b ≤ 60 ∧ 3 ≤ graphics_demo.y b ≤ 28 ∧
        Z.abs (graphics_demo.dx b) = 2 ∧ Z.abs (graphics_demo.dy b) = 1) ∧
  length graphics_demo.demo_animation = 50%nat ∧
  Forall on_screen graphics_demo.demo_animation.
Proof.
  split; [|split; [reflexivity|]].
  - intros n b. destruct (in_court_at_frame n) as [(k & Hx & Hdx) Hy].
    subst b. lia.
  - refine (bool_decide_unpack _ _). by vm_compute.
Qed.

(** ** tests/test_display.py: the summary *)

Lemma passed_from (results : list (string * bool)) (a : nat) :
  let count := foldl (λ passed '(name, result),
                        if result : bool then S passed else passed) a results in
  (count ≤ a + length results)%nat ∧
  (count = (a + length results)%nat ↔ Forall (λ r, r.2 = true) results).
Proof.
  revert a. induction results as [|[name []] results IH]; intros a; simpl.
  - split; [lia|]. split; [by constructor|lia].
  - destruct (IH (S a)) as [Hle Hiff]. split; [lia|].
    rewrite Forall_cons. simpl. rewrite <- Hiff. split; [intros ?|intros [_ ?]]; [split|]; lia.
  - destruct (IH a) as [Hle Hiff]. split; [lia|].
    rewrite Forall_cons. simpl. split; [lia|by intros [? _]].
Qed.

Lemma some_failed (results : list (string * bool)) :
  ¬ Forall (λ r, r.2 = true) results → ∃ name, (name, false) ∈ results.
Proof.
  induction results as [|[name []] results IH]; intros Hnot.
  - destruct Hnot. constructor.
  - destruct IH as [name' Hin].
    + intros Hall. apply Hnot. by constructor.
    + exists name'. by right.
  - exists name. by left.
Qed.

(** X17. main returns 0 exactly when every collected test result is true,
    and 1 as soon as one of them is false; the number it counts as passed
    never exceeds the number of tests, and with no test at all it
    returns 0. *)
Theorem main_returns_zero_iff_all_passed (results : list (string * bool)) :
  (test_display.main_returns results = 0 ↔ Forall (λ r, r.2 = true) results) ∧
  (test_display.main_returns results = 1 ↔ ∃ name, (name, false) ∈ results) ∧
  (test_display.passed results ≤ length results)%nat ∧
  test_display.main_returns [] = 0.
Proof.
  destruct (passed_from results 0) as [Hle Hiff]. simpl in Hle, Hiff.
  unfold test_display.main_returns, test_display.passed.
  split; [|split; [|split; [done|reflexivity]]].
  - rewrite <- Hiff. case_bool_decide; split; intros; try done; lia.
  - assert ((∃ name, (name, false) ∈ results) ↔
            ¬ Forall (λ r : string * bool, r.2 = true) results) as ->.
    { split.
      - intros [name Hin] Hall. rewrite Forall_forall in Hall.
        by specialize (Hall _ Hin).
      - apply some_failed. }
    rewrite <- Hiff. case_bool_decide; split; intros; try done; lia.
Qed.

(** ** examples/hello_world.py: the standalone example *)

Lemma close_reliable (st : state) :
  close reliable st =
    (inl tt, sent [write_byte_data (address (self st)) 0x00 0xAE; bus_close] st).
Proof.
  unfold close, power, bind. rewrite _command_reliable. simpl.
  rewrite call_reliable, sent_sent. reflexivity.
Qed.

Lemma with_canvas_paints convert resize
    (drawing : ImageDraw → Py Canvas.scope unit) (dev : state) :
  paints drawing → geometry dev →
  ∃ frame,
    length frame = length (_buffer (self dev)) ∧
    Canvas.with_canvas reliable convert resize drawing dev =
      (inl tt, sent (display_traffic (self (set_buffer frame dev)))
                 (set_buffer frame dev)).
Proof.
  intros Hp Hg. rewrite with_canvas_unfold.
  destruct (Hp (Canvas.__init__ dev)) as [img ->]. simpl.
  destruct (image_on_geometry convert resize img dev Hg)
    as (st' & -> & Hg' & [frame ->] & _).
  rewrite display_reliable. exists frame. split; [|done].
  destruct Hg as (_ & _ & Hl), Hg' as (_ & _ & Hl'). simpl in Hl'. lia.
Qed.



(** ** display, whatever the transport does *)

Lemma for_each_app {S A} (xs ys : list A) (body : A → Py S unit) (s : S) :
  for_each (xs ++ ys) body s = (for_each xs body ;; for_each ys body) s.
Proof.
  revert s. induction xs as [|x xs IH]; intros s; [done|].
  simpl. unfold bind in *. destruct (body x s) as [[[]|e] s']; [apply IH|done].
Qed.

Lemma for_each_call_fixed nack {A} (f : A → attrs → txn) (xs : list A) (st : state) :
  for_each xs (λ x st, call nack (f x (self st)) st) st =
    for_each ((λ x, f x (self st)) <$> xs) (λ t st, call nack t st) st.
Proof.
  revert st. induction xs as [|x xs IH]; intros st; [done|].
  simpl. unfold bind. unfold call at 1 3.
  destruct (nack (wire st) (f x (self st))); [done|].
  exact (IH (log (Sent (f x (self st))) st)).
Qed.

Lemma calls_self nack (ts : list txn) (st : state) :
  self (snd (for_each ts (λ t st, call nack t st) st)) = self st.
Proof.
  pose proof (leaves_calls nack (self st) (λ t _, t) ts st eq_refl) as H.
  destruct (for_each ts _ st) as [[[]|e] s']; [done|by destruct H].
Qed.

Lemma _command_as_calls nack (cmds : list Z) (st : state) :
  _command nack cmds st =
    for_each (write_byte_data (address (self st)) 0x00 <$> cmds)
      (λ t st, call nack t st) st.
Proof.
  apply (for_each_call_fixed nack (λ cmd o, write_byte_data (address o) 0x00 cmd)).
Qed.

Lemma _data_as_calls nack (data_bytes : list Z) (st : state) :
  _data nack data_bytes st =
    for_each (write_i2c_block_data (address (self st)) 0x40 <$> chunks data_bytes)
      (λ t st, call nack t st) st.
Proof.
  unfold _data, chunks. cbv zeta.
  rewrite (for_each_call_fixed nack
             (λ i o, write_i2c_block_data (address o) 0x40
                       (py_slice data_bytes i (i + 32)))).
  by rewrite <- list_fmap_compose.
Qed.

Lemma display_as_calls nack (st : state) :
  display nack st =
    for_each (display_traffic (self st)) (λ t st, call nack t st) st.
Proof.
  set (body := λ (t : txn) (st : state), call nack t st).
  set (c1 := write_byte_data (address (self st)) 0x00 <$>
               [SET_COLUMN_ADDR; 0; width (self st) - 1]).
  set (c2 := write_byte_data (address (self st)) 0x00 <$>
               [SET_PAGE_ADDR; 0; pages (self st) - 1]).
  set (d := write_i2c_block_data (address (self st)) 0x40 <$>
              chunks (_buffer (self st))).
  change (display_traffic (self st)) with (c1 ++ (c2 ++ d)).
  rewrite (for_each_app c1 (c2 ++ d) body st).
  unfold display, bind. rewrite _command_as_calls. fold body c1.
  pose proof (calls_self nack c1 st) as H1. fold body in H1.
  destruct (for_each c1 body st) as [[[]|e1] s1]; [|done]. simpl in H1.
  rewrite (for_each_app c2 d body s1). unfold bind.
  rewrite _command_as_calls, H1. fold body c2.
  pose proof (calls_self nack c2 s1) as H2. fold body in H2.
  destruct (for_each c2 body s1) as [[[]|e2] s2]; [|done]. simpl in H2.
  rewrite _data_as_calls, H2, H1. reflexivity.
Qed.

(** X19. Whatever the transport does, display() attempts the column
    window bytes 0x21, 0, width-1, the page window bytes 0x22, 0, pages-1
    and then the chunks of the buffer, in this order, and stops at the
    first call that raises: it completes after all of them, or raises
    OSError after the first k went through and call k was refused.  So no
    data block is ever sent unless all six addressing bytes went through. *)
Theorem display_stops_at_first_failure nack (st : state) :
  let ts := display_traffic (self st) in
  (display nack st = (inl tt, sent ts st) ∨
   ∃ (k : nat) (t : txn),
     ts !! k = Some t ∧
     display nack st = (inr OSError, cut_short (take k ts) t st)) ∧
  take 6 ts =
    write_byte_data (address (self st)) 0x00 <$>
      [0x21; 0; width (self st) - 1; 0x22; 0; pages (self st) - 1].
Proof.
  intros ts. split; [|reflexivity].
  rewrite display_as_calls. fold ts.
  destruct (for_each_call_any nack (λ t _, t) ts st) as [Hok|(k & t & Hk & Hfail)].
  - left. cbv beta in Hok. rewrite Hok. by rewrite list_fmap_id.
  - right. exists k, t. cbv beta in Hfail. rewrite list_fmap_id in Hk, Hfail. done.
Qed.

(** ** The constructor, whatever the transport does *)

Lemma plays_bind nack (o : attrs) (ts1 ts2 : list txn) (m1 m2 : Py state unit) :
  plays nack o ts1 m1 → plays nack o ts2 m2 →
  plays nack o (ts1 ++ ts2) (m1 ;; m2).
Proof.
  intros H1 H2 st Hst. rewrite for_each_app. unfold bind. rewrite (H1 st Hst).
  pose proof (calls_self nack ts1 st) as Hs.
  destruct (for_each ts1 _ st) as [[[]|e] s1]; [|done].
  simpl in Hs. apply H2. congruence.
Qed.

Lemma plays__command nack (o : attrs) (cmds : list Z) :
  plays nack o (write_byte_data (address o) 0x00 <$> cmds) (_command nack cmds).
Proof. intros st <-. apply _command_as_calls. Qed.

Lemma plays__command_of nack (o : attrs) (cmds : attrs → list Z) :
  plays nack o (write_byte_data (address o) 0x00 <$> cmds o)
    (λ st, _command nack (cmds (self st)) st).
Proof. intros st <-. apply _command_as_calls. Qed.

Lemma plays_rotation nack (o : attrs) :
  plays nack o
    (write_byte_data (address o) 0x00 <$>
       (if bool_decide (rotate o = 0) then [SEG_REMAP_ON; COM_SCAN_DEC]
        else [SEG_REMAP_OFF; COM_SCAN_INC]))
    (λ st,
       if bool_decide (rotate (self st) = 0) then
         (_command nack [SEG_REMAP_ON] ;; _command nack [COM_SCAN_DEC]) st
       else
         (_command nack [SEG_REMAP_OFF] ;; _command nack [COM_SCAN_INC]) st).
Proof.
  intros st Hst. rewrite Hst. destruct (bool_decide (rotate o = 0)).
  - exact (plays_bind nack o _ _ _ _ (plays__command nack o [SEG_REMAP_ON])
             (plays__command nack o [COM_SCAN_DEC]) st Hst).
  - exact (plays_bind nack o _ _ _ _ (plays__command nack o [SEG_REMAP_OFF])
             (plays__command nack o [COM_SCAN_INC]) st Hst).
Qed.

Lemma plays_clear nack (o : attrs) :
  _buffer o = py_list_mul 0 (width o * pages o) → plays nack o [] clear.
Proof.
  intros Hb st <-. unfold clear. rewrite <- Hb. by destruct st as [[]].
Qed.

Lemma plays_display nack (o : attrs) :
  plays nack o (display_traffic o) (display nack).
Proof. intros st <-. apply display_as_calls. Qed.

Lemma plays_eq nack (o : attrs) (ts ts' : list txn) (m : Py state unit) :
  plays nack o ts m → ts = ts' → plays nack o ts' m.
Proof. by intros H <-. Qed.

(** On an object whose buffer is zeroed, _init_display makes these calls:
    the command bytes in the order of the source, then one display(). *)
Lemma _init_display_plays nack (o : attrs) :
  _buffer o = py_list_mul 0 (width o * pages o) →
  plays nack o
    ((write_byte_data (address o) 0x00 <$>
        [0xAE; 0xD5; 0x80; 0xA8; height o - 1; 0xD3; 0x00; 0x40;
         0x8D; 0x14; 0x20; 0x00] ++
        (if bool_decide (rotate o = 0) then [0xA1; 0xC8] else [0xA0; 0xC0]) ++
        [0xDA; if bool_decide (height o ≤ 32) then 0x02 else 0x12;
         0x81; 0xCF; 0xD9; 0xF1; 0xDB; 0x40; 0xA4; 0xA6; 0xAF]) ++
     display_traffic o)
    (_init_display nack).
Proof.
  intros Hb. unfold _init_display.
  pose (mux_ratio := λ a : attrs, [SET_MUX_RATIO; height a - 1]).
  pose (com_pins := λ a : attrs,
          [SET_COM_PINS; if bool_decide (height a ≤ 32) then 0x02 else 0x12]).
  eapply plays_eq.
  - eapply plays_bind; [apply plays__command|].
    eapply plays_bind; [apply plays__command|].
    eapply plays_bind; [exact (plays__command_of nack o mux_ratio)|].
    eapply plays_bind; [apply plays__command|].
    eapply plays_bind; [apply plays__command|].
    eapply plays_bind; [apply plays__command|].
    eapply plays_bind; [apply plays__command|].
    eapply plays_bind; [apply plays_rotation|].
    eapply plays_bind; [exact (plays__command_of nack o com_pins)|].
    eapply plays_bind; [apply plays__command|].
    eapply plays_bind; [apply plays__command|].
    eapply plays_bind; [apply plays__command|].
    eapply plays_bind; [apply plays__command|].
    eapply plays_bind; [apply plays__command|].
    eapply plays_bind; [apply plays__command|].
    eapply plays_bind; [by apply plays_clear|].
    apply plays_display.
  - by destruct (bool_decide (rotate o = 0)).
Qed.

Lemma calls_stop_at_first_failure nack (ts : list txn) (st : state) :
  for_each ts (λ t st, call nack t st) st = (inl tt, sent ts st) ∨
  ∃ (k : nat) (t : txn),
    ts !! k = Some t ∧
    for_each ts (λ t st, call nack t st) st =
      (inr OSError, cut_short (take k ts) t st).
Proof.
  destruct (for_each_call_any nack (λ t _, t) ts st) as [Hok|(k & t & Hk & Hfail)];
    cbv beta in *; rewrite list_fmap_id in *; [by left|right]. by exists k, t.
Qed.

(** C8, amended. The constructor does not validate the geometry: for every
    width and height, valid or not, it first opens the bus; when that is
    refused it raises OSError and nothing else happens.  Otherwise it takes
    pages = height // 8, allocates a zeroed buffer of width*pages bytes and
    runs the initialization sequence, which is the command bytes of
    _init_display in order followed by one display() of the zeroed buffer,
    up to the first call the transport refuses.  The only exception it can
    raise is the transport's OSError, and on a transport that accepts every
    write it returns the object after the whole sequence. *)
Theorem constructor_does_not_validate_geometry
    nack (bus_ address_ width_ height_ rotate_ : Z) (w : list event) :
  let o := {| bus := bus_; address := address_; width := width_;
              height := height_; rotate := rotate_; pages := height_ / 8;
              _buffer := py_list_mul 0 (width_ * (height_ / 8)) |} in
  let ts :=
    (write_byte_data address_ 0x00 <$>
       [0xAE; 0xD5; 0x80; 0xA8; height_ - 1; 0xD3; 0x00; 0x40;
        0x8D; 0x14; 0x20; 0x00] ++
       (if bool_decide (rotate_ = 0) then [0xA1; 0xC8] else [0xA0; 0xC0]) ++
       [0xDA; if bool_decide (height_ ≤ 32) then 0x02 else 0x12;
        0x81; 0xCF; 0xD9; 0xF1; 0xDB; 0x40; 0xA4; 0xA6; 0xAF]) ++
    display_traffic o in
  (nack w (SMBus bus_) = true →
   __init__ nack bus_ address_ width_ height_ rotate_ w =
     (inr OSError, w ++ [Nacked (SMBus bus_)])) ∧
  (nack w (SMBus bus_) = false →
   __init__ nack bus_ address_ width_ height_ rotate_ w =
     (inl o, w ++ [Sent (SMBus bus_)] ++ (Sent <$> ts)) ∨
   ∃ (k : nat) (t : txn),
     ts !! k = Some t ∧
     __init__ nack bus_ address_ width_ height_ rotate_ w =
       (inr OSError,
        w ++ [Sent (SMBus bus_)] ++ (Sent <$> take k ts) ++ [Nacked t])) ∧
  (∃ opened rest,
     snd (__init__ nack bus_ address_ width_ height_ rotate_ w) =
       w ++ opened :: rest ∧
     (opened = Sent (SMBus bus_) ∨ opened = Nacked (SMBus bus_))) ∧
  (∀ e, fst (__init__ nack bus_ address_ width_ height_ rotate_ w) = inr e →
        e = OSError) ∧
  __init__ reliable bus_ address_ width_ height_ rotate_ w =
    (inl o, w ++ [Sent (SMBus bus_)] ++ (Sent <$> ts)).
Proof.
  intros o ts.
  assert (nack w (SMBus bus_) = true →
          __init__ nack bus_ address_ width_ height_ rotate_ w =
            (inr OSError, w ++ [Nacked (SMBus bus_)])) as Hclosed.
  { intros Hn. unfold __init__. by rewrite Hn. }
  assert (nack w (SMBus bus_) = false →
          __init__ nack bus_ address_ width_ height_ rotate_ w =
            (inl o, w ++ [Sent (SMBus bus_)] ++ (Sent <$> ts)) ∨
          ∃ (k : nat) (t : txn),
            ts !! k = Some t ∧
            __init__ nack bus_ address_ width_ height_ rotate_ w =
              (inr OSError,
               w ++ [Sent (SMBus bus_)] ++ (Sent <$> take k ts) ++ [Nacked t]))
    as Hopened.
  { intros Hn. unfold __init__. rewrite Hn. cbv zeta.
    set (st0 := {| self := o; wire := w ++ [Sent (SMBus bus_)] |}).
    change (_init_display nack _) with (_init_display nack st0).
    assert (_init_display nack st0 = for_each ts (λ t st, call nack t st) st0)
      as -> by exact (_init_display_plays nack o eq_refl st0 eq_refl).
    destruct (calls_stop_at_first_failure nack ts st0)
      as [->|(k & t & Hk & ->)].
    - left. unfold sent. simpl. by rewrite <- app_assoc.
    - right. exists k, t. split; [done|].
      unfold cut_short, log, sent. simpl. by rewrite <- !app_assoc. }
  split; [done|]. split; [done|]. split; [|split].
  - destruct (nack w (SMBus bus_)) eqn:Hn.
    + rewrite Hclosed by done. exists (Nacked (SMBus bus_)), []. split; [done|by right].
    + destruct (Hopened eq_refl) as [->|(k & t & _ & ->)]; eexists _, _;
        (split; [reflexivity|by left]).
  - intros e. destruct (nack w (SMBus bus_)) eqn:Hn.
    + rewrite Hclosed by done. by intros [= <-].
    + by destruct (Hopened eq_refl) as [->|(k & t & _ & ->)]; intros [= <-].
  - apply __init__reliable.
Qed.

(** On a dead transport the constructor raises OSError at once. *)
Lemma constructor_on_dead_transport :
  dead [] (SMBus 1) = true ∧
  __init__ dead 1 0x3C 64 12 0 [] = (inr OSError, [Nacked (SMBus 1)]).
Proof.
  assert (dead [] (SMBus 1) = true) as Hn by reflexivity.
  split; [exact Hn|].
  exact (proj1 (constructor_does_not_validate_geometry dead 1 0x3C 64 12 0 []) Hn).
Defined.

(** A transport that goes down after three calls: the bus was opened, two
    command bytes went through and the third was refused. *)
Example constructor_on_a_transport_that_drops :
  __init__ (drops_after 3) 1 0x3C 64 32 0 [] =
    (inr OSError,
     [Sent (SMBus 1); Sent (write_byte_data 0x3C 0x00 0xAE);
      Sent (write_byte_data 0x3C 0x00 0xD5);
      Nacked (write_byte_data 0x3C 0x00 0x80)]).
Proof. by vm_compute. Qed.

(** ** tests/test_display.py: the standalone driver test *)

Lemma close_completes nack (st st' : state) :
  close nack st = (inl tt, st') →
  st' = sent [write_byte_data (address (self st)) 0x00 0xAE; bus_close] st.
Proof.
  unfold close, power, _command, bind. simpl for_each. unfold bind, ret.
  destruct (nack (wire st) (write_byte_data (address (self st)) 0x00 DISPLAY_OFF))
    eqn:Hoff.
  - by rewrite call_refused.
  - rewrite call_accepted by done.
    destruct (nack (wire (sent [write_byte_data (address (self st)) 0x00 DISPLAY_OFF] st))
                bus_close) eqn:Hc.
    + by rewrite call_refused.
    + rewrite call_accepted by done. rewrite sent_cons. by intros [= <-].
Qed.

(** X20. The standalone driver test reports a pass only after the whole
    sequence ran: whenever it returns True, whatever the transport did, the
    last two things on the bus are the power-off command 0xAE and the
    closing of the bus.  When the bus cannot be opened it returns False
    after that single attempt, raising nothing; and on a transport that
    accepts every write, with a block that only paints, it returns True. *)
Theorem test_standalone_driver_passes_only_after_close
    nack convert resize (drawing : ImageDraw → Py Canvas.scope unit)
    (w : list event) :
  (fst (test_display.test_standalone_driver nack convert resize drawing w) = true →
   ∃ before addr,
     snd (test_display.test_standalone_driver nack convert resize drawing w) =
       before ++ [Sent (write_byte_data addr 0x00 0xAE); Sent bus_close]) ∧
  (nack w (SMBus 1) = true →
   test_display.test_standalone_driver nack convert resize drawing w =
     (false, w ++ [Nacked (SMBus 1)])) ∧
  (paints drawing →
   fst (test_display.test_standalone_driver reliable convert resize drawing w) = true).
Proof.
  split; [|split].
  - unfold test_display.test_standalone_driver.
    destruct (__init__ nack 1 60 64 32 0 w) as [[o|e] w']; [|done].
    unfold bind.
    destruct (Canvas.with_canvas nack convert resize drawing _) as [[[]|e1] s1];
      [|done].
    destruct (clear s1) as [[[]|e2] s2]; [|done].
    destruct (display nack s2) as [[[]|e3] s3]; [|done].
    destruct (close nack s3) as [[[]|e4] s4] eqn:Hclose; [|done].
    intros _. apply close_completes in Hclose as ->.
    exists (wire s3), (address (self s3)). reflexivity.
  - intros Hn. unfold test_display.test_standalone_driver, __init__.
    by rewrite Hn.
  - intros Hp. unfold test_display.test_standalone_driver.
    rewrite __init__reliable. cbv zeta.
    match goal with
    | |- context [{| self := ?o; wire := ?w1 |}] =>
        set (st0 := {| self := o; wire := w1 |})
    end.
    assert (geometry st0) as Hg by (repeat split; reflexivity).
    destruct (with_canvas_paints convert resize drawing st0 Hp Hg)
      as (frame & _ & Hrun).
    unfold bind. rewrite Hrun. unfold clear.
    by rewrite display_reliable, close_reliable.
Qed.
